(** * diecast funcdoc: function-documentation extraction (cli/funcdoc.go)

    A shallow embedding of [GenerateFunctionDocs], [getFnSignature] and
    [main] of cli/funcdoc.go, together with the parts of the Go standard
    library (strings, regexp, reflect) and of go-stockutil (rxutil,
    typeutil) that these functions call.

    Go strings are modelled as byte strings ([string]); the standard output
    is modelled as the text written to it. *)

From Stdlib Require Import Ascii String List Bool Arith Lia.
From stdpp Require Import base strings gmap list.

Local Open Scope nat_scope.
Local Open Scope stdpp_scope.

(* ===================================================================== *)
(** ** Package strings (Go standard library) *)
(* ===================================================================== *)

Module strings.

(** [strings.HasPrefix]. *)
Fixpoint HasPrefix (s prefix : string) {struct prefix} : bool :=
  match prefix, s with
  | EmptyString, _ => true
  | String p prefix', String c s' => Ascii.eqb p c && HasPrefix s' prefix'
  | String _ _, EmptyString => false
  end.

(** [s[n:]] for [n <= len(s)]. *)
Fixpoint drop (n : nat) (s : string) : string :=
  match n, s with
  | O, _ => s
  | S n', String _ s' => drop n' s'
  | S _, EmptyString => EmptyString
  end.

(** [s[:n]] for [n <= len(s)]. *)
Fixpoint take (n : nat) (s : string) : string :=
  match n, s with
  | O, _ => EmptyString
  | S n', String c s' => String c (take n' s')
  | S _, EmptyString => EmptyString
  end.

(** [strings.TrimPrefix]: [s] without the leading [prefix]; [s] itself
    when it does not start with [prefix]. *)
Definition TrimPrefix (s prefix : string) : string :=
  if HasPrefix s prefix then drop (String.length prefix) s else s.

(** The white space of [unicode.IsSpace] in its UTF-8 encoding: the six
    ASCII bytes ['\t', '\n', '\v', '\f', '\r', ' ']; in two bytes U+0085 and
    U+00A0; in three bytes U+1680, U+2000 to U+200A, U+2028, U+2029, U+202F,
    U+205F and U+3000.  (An overlong or broken sequence decodes to the
    replacement rune, which is no white space.) *)
Definition isSpace1 (b1 : ascii) : bool :=
  let n := nat_of_ascii b1 in
  ((9 <=? n) && (n <=? 13)) || (n =? 32).

Definition isSpace2 (b1 b2 : ascii) : bool :=
  (nat_of_ascii b1 =? 194)                                   (* C2 *)
  && ((nat_of_ascii b2 =? 133) || (nat_of_ascii b2 =? 160)). (* 85, A0 *)

Definition isSpace3 (b1 b2 b3 : ascii) : bool :=
  let n1 := nat_of_ascii b1 in
  let n2 := nat_of_ascii b2 in
  let n3 := nat_of_ascii b3 in
  ((n1 =? 225) && (n2 =? 154) && (n3 =? 128))                (* E1 9A 80 *)
  || ((n1 =? 226) && (n2 =? 128)                             (* E2 80 .. *)
      && (((128 <=? n3) && (n3 <=? 138))                     (* 80 to 8A *)
          || (n3 =? 168) || (n3 =? 169) || (n3 =? 175)))     (* A8, A9, AF *)
  || ((n1 =? 226) && (n2 =? 129) && (n3 =? 159))             (* E2 81 9F *)
  || ((n1 =? 227) && (n2 =? 128) && (n3 =? 128)).            (* E3 80 80 *)

(** The text without the white space runes in front of it.  With
    [backwards] the text is read from its end, so that the bytes of a rune
    come last byte first. *)
Fixpoint trimFront (backwards : bool) (s : string) : string :=
  match s with
  | String c1 s1 =>
      if isSpace1 c1 then trimFront backwards s1
      else
        match s1 with
        | String c2 s2 =>
            if (if backwards then isSpace2 c2 c1 else isSpace2 c1 c2)
            then trimFront backwards s2
            else
              match s2 with
              | String c3 s3 =>
                  if (if backwards then isSpace3 c3 c2 c1 else isSpace3 c1 c2 c3)
                  then trimFront backwards s3
                  else s
              | EmptyString => s
              end
        | EmptyString => s
        end
  | EmptyString => EmptyString
  end.

(** [strings.TrimLeftFunc(s, unicode.IsSpace)]. *)
Definition TrimLeftSpace (s : string) : string := trimFront false s.

(** [strings.TrimRightFunc(s, unicode.IsSpace)]. *)
Definition TrimRightSpace (s : string) : string :=
  String.rev (trimFront true (String.rev s)).

(** [strings.TrimSpace]: [s] without the leading and the trailing white
    space, as Unicode defines it. *)
Definition TrimSpace (s : string) : string :=
  TrimRightSpace (TrimLeftSpace s).

(** [strings.Join]. *)
Fixpoint Join (elems : list string) (sep : string) : string :=
  match elems with
  | [] => ""
  | [e] => e
  | e :: rest => e +:+ sep +:+ Join rest sep
  end.

(** [strings.Split] for a non-empty separator: the pieces of [s] between
    the successive non-overlapping occurrences of [sep].  [skip] counts the
    bytes of an occurrence of [sep] still to pass over, [cur] is the
    piece being read, reversed. *)
Fixpoint Split_go (sep : string) (skip : nat) (cur : string) (s : string)
  : list string :=
  match s with
  | EmptyString => [String.rev cur]
  | String c s' =>
      match skip with
      | S skip' => Split_go sep skip' cur s'
      | O =>
          if HasPrefix s sep
          then String.rev cur :: Split_go sep (String.length sep - 1) "" s'
          else Split_go sep 0 (String c cur) s'
      end
  end.

Definition Split (s sep : string) : list string := Split_go sep 0 "" s.

End strings.

(* ===================================================================== *)
(** ** Package regexp (Go standard library), for the two patterns used *)
(* ===================================================================== *)

Module regexp.

(** The fragment of the RE2 syntax the two patterns of funcdoc.go are
    written in.  [Repeat min r] is the greedy [r*] ([min = 0]) or [r+]
    ([min = 1]); [Capture i name r] is the [i]-th capturing group,
    [(?P<name>r)] when it is named and [(r)] when [name] is empty. *)
Inductive Regexp : Type :=
| Lit (s : string)
| Class (p : ascii → bool)
| Cat (r1 r2 : Regexp)
| Repeat (min : nat) (r : Regexp)
| Capture (i : nat) (name : string) (r : Regexp).

Definition Star := Repeat 0.
Definition Plus := Repeat 1.

(** Perl character classes and the dot, without flags. *)
Definition class_space (c : ascii) : bool :=          (* \s *)
  match c with
  | "009" | "010" | "012" | "013" | " " => true
  | _ => false
  end%char.

Definition class_word (c : ascii) : bool :=           (* \w *)
  let n := nat_of_ascii c in
  ((48 <=? n) && (n <=? 57)) || ((65 <=? n) && (n <=? 90))
  || ((97 <=? n) && (n <=? 122)) || (n =? 95).

Definition class_dot (c : ascii) : bool :=            (* . *)
  negb (Ascii.eqb c "010"%char).

Definition class_not (x : ascii) (c : ascii) : bool := (* [^x] *)
  negb (Ascii.eqb c x).

(** The text of [s] in front of its suffix [s']. *)
Definition consumed (s s' : string) : string :=
  strings.take (String.length s - String.length s') s.

(** Backtracking matcher anchored at the start of [s], with the
    leftmost-first preference of Go's regexp: a greedy repetition tries
    one more iteration before it tries to stop.  [caps] holds the text of
    the capturing groups (a group inside a repetition keeps its last
    iteration); [k] is what is left to match. *)
Fixpoint rxMatch {A : Type} (r : Regexp) (s : string) (caps : list string)
    (k : string → list string → option A) : option A :=
  match r with
  | Lit l =>
      if strings.HasPrefix s l then k (strings.drop (String.length l) s) caps
      else None
  | Class p =>
      match s with
      | String c s' => if p c then k s' caps else None
      | EmptyString => None
      end
  | Cat r1 r2 =>
      rxMatch r1 s caps (fun s' caps' => rxMatch r2 s' caps' k)
  | Capture i _ r' =>
      rxMatch r' s caps (fun s' caps' => k s' (<[i := consumed s s']> caps'))
  | Repeat min r' =>
      (fix loop (fuel n : nat) (s : string) (caps : list string)
         {struct fuel} : option A :=
         let stop := if min <=? n then k s caps else None in
         match fuel with
         | O => stop
         | S fuel' =>
             match rxMatch r' s caps (fun s' caps' =>
                       if String.length s' <? String.length s
                       then loop fuel' (S n) s' caps' else None) with
             | Some a => Some a
             | None => stop
             end
         end) (String.length s) 0 s caps
  end.

(** [Regexp.SubexpNames]: the names of the groups, the first (the
    whole match) being empty. *)
Fixpoint groupNames (r : Regexp) : list string :=
  match r with
  | Lit _ | Class _ => []
  | Cat r1 r2 => groupNames r1 ++ groupNames r2
  | Repeat _ r' => groupNames r'
  | Capture _ name r' => name :: groupNames r'
  end.

Definition SubexpNames (r : Regexp) : list string := "" :: groupNames r.

(** A match at the start of [s]: the submatches (whole match first) and
    the text after the match. *)
Definition matchHere (r : Regexp) (s : string)
  : option (list string * string) :=
  rxMatch r s (replicate (length (SubexpNames r)) "")
    (fun s' caps => Some (<[0 := consumed s s']> caps, s')).

(** The leftmost match in [s]. *)
Fixpoint leftmost (r : Regexp) (s : string) : option (list string * string) :=
  match matchHere r s with
  | Some m => Some m
  | None =>
      match s with
      | String _ s' => leftmost r s'
      | EmptyString => None
      end
  end.

(** [Regexp.FindStringSubmatch]; [None] is the nil slice. *)
Definition FindStringSubmatch (r : Regexp) (s : string) : option (list string) :=
  fst <$> leftmost r s.

(** [Regexp.FindAllStringSubmatch(s, -1)]: the successive
    non-overlapping matches.  After an empty match the search moves one
    byte on. *)
Fixpoint findAll (fuel : nat) (r : Regexp) (s : string) : list (list string) :=
  match fuel with
  | O => []
  | S fuel' =>
      match leftmost r s with
      | None => []
      | Some (m, rest) =>
          m :: (if String.length rest <? String.length s
                then findAll fuel' r rest
                else match rest with
                     | String _ rest' => findAll fuel' r rest'
                     | EmptyString => []
                     end)
      end
  end.

Definition FindAllStringSubmatch (r : Regexp) (s : string) : list (list string) :=
  findAll (S (String.length s)) r s.

End regexp.

(* ===================================================================== *)
(** ** Package rxutil (go-stockutil) *)
(* ===================================================================== *)

Module rxutil.
Import regexp.

(** [rxutil.MatchResult]. *)
Record MatchResult : Type := {
  names : list string;
  matches : list string;
  all_submatches : list (list string)
}.

(** [rxutil.Match(source, pattern)]: the leftmost match of [pattern] in
    [source], [None] (nil) when there is none. *)
Definition Match (source : string) (pattern : Regexp) : option MatchResult :=
  match FindStringSubmatch pattern source with
  | Some m =>
      Some {| names := SubexpNames pattern;
              matches := m;
              all_submatches := FindAllStringSubmatch pattern source |}
  | None => None
  end.

Fixpoint indexOf (name : string) (l : list string) (i : nat) : option nat :=
  match l with
  | [] => None
  | x :: l' => if String.eqb x name then Some i else indexOf name l' (S i)
  end.

(** [MatchResult.Group(name)]: the text of the named group, empty
    when there is no such group. *)
Definition Group (m : MatchResult) (name : string) : string :=
  match indexOf name (names m) 0 with
  | Some i => default "" (matches m !! i)
  | None => ""
  end.

(** [MatchResult.AllCaptures]: the captures of all matches appended
    together, the whole-match strings left out. *)
Definition AllCaptures (m : MatchResult) : list string :=
  concat (map (@tail string) (all_submatches m)).

End rxutil.

(* ===================================================================== *)
(** ** Package reflect (Go standard library) *)
(* ===================================================================== *)

Module reflect.

(** [reflect.Kind]. *)
Inductive Kind : Type :=
| Invalid | Bool | Int | Int8 | Int16 | Int32 | Int64
| Uint | Uint8 | Uint16 | Uint32 | Uint64 | Uintptr
| Float32 | Float64 | Complex64 | Complex128
| Array | Chan | Func | Interface | Map | Pointer | Slice
| String | Struct | UnsafePointer.

Definition Kind_eqb (a b : Kind) : bool :=
  match a, b with
  | Invalid, Invalid | Bool, Bool | Int, Int | Int8, Int8 | Int16, Int16
  | Int32, Int32 | Int64, Int64 | Uint, Uint | Uint8, Uint8
  | Uint16, Uint16 | Uint32, Uint32 | Uint64, Uint64 | Uintptr, Uintptr
  | Float32, Float32 | Float64, Float64 | Complex64, Complex64
  | Complex128, Complex128 | Array, Array | Chan, Chan | Func, Func
  | Interface, Interface | Map, Map | Pointer, Pointer | Slice, Slice
  | String, String | Struct, Struct | UnsafePointer, UnsafePointer => true
  | _, _ => false
  end.

(** The name of the predeclared type of a basic kind.  *)
Definition basicName (k : Kind) : string :=
  match k with
  | Bool => "bool" | Int => "int" | Int8 => "int8" | Int16 => "int16"
  | Int32 => "int32" | Int64 => "int64" | Uint => "uint" | Uint8 => "uint8"
  | Uint16 => "uint16" | Uint32 => "uint32" | Uint64 => "uint64"
  | Uintptr => "uintptr" | Float32 => "float32" | Float64 => "float64"
  | Complex64 => "complex64" | Complex128 => "complex128"
  | String => "string"
  | _ => ""
  end.

(** [reflect.Type]: a Go type as reflection shows it.  [Basic k] is the
    predeclared type of a basic kind ([int], [string], ...); [Named]
    is a defined type ([type Name underlying], also the predeclared
    [error]); the others are the type literals: [*T], [[]T], [[n]T],
    [map[K]V], [chan T], [interface{ methods }] (the empty interface
    [interface{}], alias [any], is [InterfaceOf []]), [struct{ fields }]
    and [func(ins) outs], variadic when its last parameter, of slice
    type [[]T], was declared [...T]. *)
#[warnings="-register-all"] Inductive rtype : Type :=
| Basic (k : Kind)
| Named (name : string) (underlying : rtype)
| PointerTo (elem : rtype)
| SliceOf (elem : rtype)
| ArrayOf (n : nat) (elem : rtype)
| MapOf (key elem : rtype)
| ChanOf (elem : rtype)
| InterfaceOf (methods : list string)
| StructOf (fields : list (string * rtype))
| FuncOf (ins outs : list rtype) (variadic : bool).

(** [Type.Name]: "the type's name within its package for a defined type.
    For other (non-defined) types it returns the empty string." *)
Definition Name (t : rtype) : string :=
  match t with
  | Basic k => basicName k
  | Named name _ => name
  | _ => ""
  end.

(** [Type.Kind]. *)
Fixpoint TypeKind (t : rtype) : Kind :=
  match t with
  | Basic k => k
  | Named _ u => TypeKind u
  | PointerTo _ => Pointer
  | SliceOf _ => Slice
  | ArrayOf _ _ => Array
  | MapOf _ _ => Map
  | ChanOf _ => Chan
  | InterfaceOf _ => Interface
  | StructOf _ => Struct
  | FuncOf _ _ _ => Func
  end.

(** The parameter types of a type of kind [Func]: [In(i)] for
    [0 <= i < NumIn()].  (On other kinds Go panics; the callers below
    ask only under [IsKind(fn, reflect.Func)].) *)
Fixpoint Ins (t : rtype) : list rtype :=
  match t with
  | FuncOf ins _ _ => ins
  | Named _ u => Ins u
  | _ => []
  end.

(** The result types of a type of kind [Func]: [Out(i)]. *)
Fixpoint Outs (t : rtype) : list rtype :=
  match t with
  | FuncOf _ outs _ => outs
  | Named _ u => Outs u
  | _ => []
  end.

Definition NumIn (t : rtype) : nat := length (Ins t).
Definition NumOut (t : rtype) : nat := length (Outs t).

(** [Type.IsVariadic]. *)
Fixpoint IsVariadic (t : rtype) : bool :=
  match t with
  | FuncOf _ _ variadic => variadic
  | Named _ u => IsVariadic u
  | _ => false
  end.

(** What an [interface{}] holds: nothing ([Nil], the nil interface), a
    pointer ([Ptr elem], [elem] being [Nil] for the nil pointer), or a
    value of a type that is not a pointer ([Of t]). *)
Inductive Value : Type :=
| Nil
| Of (t : rtype)
| Ptr (elem : Value).

(** The type of the pointer-free value (nil for [Nil]). *)
Definition TypeOf (v : Value) : option rtype :=
  match v with
  | Of t => Some t
  | _ => None
  end.

End reflect.

(* ===================================================================== *)
(** ** Package typeutil (go-stockutil) *)
(* ===================================================================== *)

Module typeutil.

(** [typeutil.ResolveValue]: follows pointers (and the interfaces they
    point to) down to the underlying value. *)
Fixpoint ResolveValue (v : reflect.Value) : reflect.Value :=
  match v with
  | reflect.Ptr elem => ResolveValue elem
  | _ => v
  end.

(** [typeutil.IsKind(in, kind)]: whether the resolved value is of the
    given kind. *)
Definition IsKind (v : reflect.Value) (kind : reflect.Kind) : bool :=
  match reflect.TypeOf (ResolveValue v) with
  | Some t => reflect.Kind_eqb (reflect.TypeKind t) kind
  | None => false
  end.

End typeutil.

(* ===================================================================== *)
(** ** Packages go/ast and go/parser (Go standard library) *)
(* ===================================================================== *)

(** A Go [error], as its message. *)
Definition error : Type := string.

Module ast.

(** [ast.Comment]: one [//] line (its text starts with the marker and has
    no line end) or one block comment. *)
Record Comment : Type := { Text : string }.

(** [ast.CommentGroup]: comments with no other token and no empty line
    between them. *)
Record CommentGroup : Type := { List : list Comment }.

(** [ast.File], of which only the comments are read. *)
Record File : Type := { Comments : list CommentGroup }.

End ast.

Module parser.

(** The result of [parser.ParseFile]: the file with a nil error, or an
    error with no file (the source could not be read) or with the
    partial file of a source with syntax errors. *)
Inductive Result : Type :=
| Parsed (f : ast.File)
| Failed (partial : option ast.File) (err : error).

End parser.

(* ===================================================================== *)
(** ** cli/funcdoc.go *)
(* ===================================================================== *)

(** [diecast.FuncMap], a [map[string]interface{}]. *)
Abbreviation FuncMap := (gmap string reflect.Value).

(** The line feed. *)
Definition LF : string := String "010"%char "".

Definition Concat (rs : list regexp.Regexp) : regexp.Regexp :=
  foldr regexp.Cat (regexp.Lit "") rs.

(** [rxFnDocString]: two slashes, [\s*], [fn], [\s*], the group [func] of
    [[^:]+], a colon, [\s*], and the group [docstring] of [.*]. *)
Definition rxFnDocString : regexp.Regexp :=
  Concat [
    regexp.Lit "//";
    regexp.Star (regexp.Class regexp.class_space);
    regexp.Lit "fn";
    regexp.Star (regexp.Class regexp.class_space);
    regexp.Capture 1 "func" (regexp.Plus (regexp.Class (regexp.class_not ":"%char)));
    regexp.Lit ":";
    regexp.Star (regexp.Class regexp.class_space);
    regexp.Capture 2 "docstring" (regexp.Star (regexp.Class regexp.class_dot))
  ].

(** The pattern of the argument names in a docstring: one or more times
    (without capture) a star, the group [\w+], a star. *)
Definition rxArgNames : regexp.Regexp :=
  regexp.Plus (Concat [
    regexp.Lit "*";
    regexp.Capture 1 "" (regexp.Plus (regexp.Class regexp.class_word));
    regexp.Lit "*"
  ]).

Record functionDoc : Type := {
  Name : string;
  DocString : string;
  Signature : string;
  Returns : string
}.

(** [&functionDoc{}]. *)
Definition emptyDoc : functionDoc :=
  {| Name := ""; DocString := ""; Signature := ""; Returns := "" |}.

(** The [switch typename] of both loops of [getFnSignature]. *)
Definition anyName (typename : string) : string :=
  if String.eqb typename "interface{}" then "any" else typename.

(** The loop over the input arguments, [in] running over the parameters
    [rest] still to render. *)
Fixpoint inLoop (fnT : reflect.rtype) (inArgNames : list string)
    (rest : list reflect.rtype) (in_ : nat) (args : list string) : list string :=
  match rest with
  | [] => args
  | inT :: rest' =>
      let typename := reflect.Name inT in
      let typename := anyName typename in
      let typename :=
        if reflect.IsVariadic fnT && (in_ + 1 =? reflect.NumIn fnT)
        then "..." +:+ typename else typename in
      let arg :=
        match inArgNames !! in_ with
        | Some argName => argName +:+ " " +:+ typename
        | None => typename
        end in
      inLoop fnT inArgNames rest' (S in_) (args ++ [arg])
  end.

(** The loop over the output arguments. *)
Fixpoint outLoop (rest : list reflect.rtype) (outs : list string) : list string :=
  match rest with
  | [] => outs
  | outT :: rest' =>
      let typename := reflect.Name outT in
      let typename := anyName typename in
      outLoop rest' (outs ++ [typename])
  end.

Definition errNotFunc : error := "must provide a function to get a signature".

Definition getFnSignature (fn : reflect.Value) (inArgNames : list string)
  : string * string * option error :=
  let fn := typeutil.ResolveValue fn in
  if typeutil.IsKind fn reflect.Func then
    match reflect.TypeOf fn with
    | Some fnT =>
        let args := inLoop fnT inArgNames (reflect.Ins fnT) 0 [] in
        let outs := outLoop (reflect.Outs fnT) [] in
        let inArgs := strings.Join args ", " in
        let outArgs := strings.Join outs ", " in
        (inArgs, outArgs, None)
    | None => ("", "", Some errNotFunc)   (* a value of kind Func has a type *)
    end
  else ("", "", Some errNotFunc).

(** The argument names of a docstring: nil without a match. *)
Definition argNamesOf (docstring : string) : list string :=
  match rxutil.Match docstring rxArgNames with
  | Some an => rxutil.AllCaptures an
  | None => []
  end.

(** The loop over [group.List], from the record [doc] built so far and
    the text [out] written so far.  [None] is [continue NextComment]: the
    group is left without reaching [docs = append(docs, doc)]. *)
Fixpoint commentLoop (funcs : FuncMap) (comments : list ast.Comment)
    (doc : functionDoc) (out : string) : option functionDoc * string :=
  match comments with
  | [] => (Some doc, out)
  | comment :: rest =>
      match rxutil.Match (ast.Text comment) rxFnDocString with
      | Some match_ =>
          let fnname := rxutil.Group match_ "func" in
          let docstring := rxutil.Group match_ "docstring" in
          match funcs !! fnname, String.eqb docstring "" with
          | Some fn, false =>
              let argNames := argNamesOf docstring in
              match getFnSignature fn argNames with
              | (signature, outputs, None) =>
                  commentLoop funcs rest
                    {| Name := fnname; DocString := docstring;
                       Signature := signature; Returns := outputs |} out
              | (_, _, Some err) =>
                  (None, out +:+ "signature failed: " +:+ err +:+ LF)
              end
          | _, _ => commentLoop funcs rest doc out
          end
      | None =>
          if negb (String.eqb (Name doc) "") then
            commentLoop funcs rest
              {| Name := Name doc;
                 DocString := DocString doc +:+ " " +:+
                   strings.TrimSpace (strings.TrimPrefix (ast.Text comment) "//");
                 Signature := Signature doc; Returns := Returns doc |} out
          else (None, out)
      end
  end.

(** The loop over [source.Comments]. *)
Fixpoint groupLoop (funcs : FuncMap) (groups : list ast.CommentGroup)
    (docs : list functionDoc) (out : string) : list functionDoc * string :=
  match groups with
  | [] => (docs, out)
  | group :: rest =>
      match commentLoop funcs (ast.List group) emptyDoc out with
      | (Some doc, out') => groupLoop funcs rest (docs ++ [doc]) out'
      | (None, out') => groupLoop funcs rest docs out'
      end
  end.

(** The loop of [main] over the records. *)
Fixpoint printLoop (docs : list functionDoc) (out : string) : string :=
  match docs with
  | [] => out
  | doc :: rest =>
      let returnSignature := Returns doc in
      let returnSignature :=
        if negb (String.eqb returnSignature "") then
          if 1 <? length (strings.Split returnSignature ",")
          then " (" +:+ returnSignature +:+ ")"
          else " " +:+ returnSignature
        else returnSignature in
      let out := out +:+ Name doc +:+ "(" +:+ Signature doc +:+ ")"
                     +:+ returnSignature +:+ LF in
      let out := out +:+ DocString doc +:+ LF +:+ LF in
      printLoop rest out
  end.

Section Program.

(** [parser.ParseFile(token.NewFileSet(), sourcefile, nil,
    parser.ParseComments)], by the name of the file. *)
Variable ParseFile : string → parser.Result.

(** [diecast.GetStandardFunctions()]. *)
Variable GetStandardFunctions : FuncMap.

(** Returns the records (nil is [None]), the error (nil is [None]) and
    the text written to the standard output. *)
Definition GenerateFunctionDocs (funcs : FuncMap) (sourcefile : string)
  : option (list functionDoc) * option error * string :=
  let docs := [] in
  match ParseFile sourcefile with
  | parser.Parsed source =>
      let '(docs, out) := groupLoop funcs (ast.Comments source) docs "" in
      (Some docs, None, out)
  | parser.Failed _ err => (None, Some err, "")
  end.

(** The text [main] writes to the standard output. *)
Definition main : string :=
  match GenerateFunctionDocs GetStandardFunctions "functions.go" with
  | (docs, None, out) => printLoop (default [] docs) out
  | (_, Some err, out) => out +:+ "err: " +:+ err +:+ LF
  end.

End Program.

Arguments rxutil.Match : simpl never.
Arguments rxutil.Group : simpl never.
Arguments getFnSignature : simpl never.
Arguments argNamesOf : simpl never.
Arguments strings.TrimSpace : simpl never.
Arguments strings.TrimPrefix : simpl never.

(* ===================================================================== *)
(** ** diecast/main.go: the walk of the site and the mounts *)
(* ===================================================================== *)

From stdpp Require Import pretty.

(** [strings.HasSuffix]. *)
Definition HasSuffix (s suffix : string) : bool :=
  (String.length suffix <=? String.length s)
  && String.eqb (strings.drop (String.length s - String.length suffix) s) suffix.

(** [strings.TrimSuffix]: [s] without the trailing [suffix]; [s] itself
    when it does not end with [suffix]. *)
Definition TrimSuffix (s suffix : string) : string :=
  if HasSuffix s suffix
  then strings.take (String.length s - String.length suffix) s
  else s.

Module sliceutil.

(** [sliceutil.ContainsString] (go-stockutil): whether [list] holds
    [elem]. *)
Fixpoint ContainsString (list : list string) (elem : string) : bool :=
  match list with
  | [] => false
  | x :: rest => String.eqb x elem || ContainsString rest elem
  end.

End sliceutil.

Module filepath.

(** [filepath.SkipDir]. *)
Definition SkipDir : error := "skip this directory".

Definition isSeparator (c : ascii) : bool := Ascii.eqb c "/"%char.

(** The bytes of a path read from its end: past the trailing separators. *)
Fixpoint dropSeparators (r : string) : string :=
  match r with
  | String c r' => if isSeparator c then dropSeparators r' else r
  | EmptyString => EmptyString
  end.

(** The bytes of a path read from its end: up to the first separator. *)
Fixpoint upToSeparator (r : string) : string :=
  match r with
  | String c r' => if isSeparator c then EmptyString else String c (upToSeparator r')
  | EmptyString => EmptyString
  end.

(** [filepath.Base] on Unix: the last element of [path], its trailing
    separators taken off first; ["."] for the empty path and ["/"] for a
    path of separators only. *)
Definition Base (path : string) : string :=
  if String.eqb path "" then "."
  else
    let path := String.rev (upToSeparator (dropSeparators (String.rev path))) in
    if String.eqb path "" then "/" else path.

(** The loop of [filepath.Ext], over the bytes of the path read from its
    end, [acc] being the bytes passed. *)
Fixpoint extFrom (r acc : string) : string :=
  match r with
  | EmptyString => EmptyString
  | String c r' =>
      if isSeparator c then EmptyString
      else if Ascii.eqb c "."%char then String c acc
      else extFrom r' (String c acc)
  end.

(** [filepath.Ext]: the suffix of [path] from the last dot of its last
    element; empty when that element has no dot. *)
Definition Ext (path : string) : string := extFrom (String.rev path) "".

End filepath.

Module diecast_main.

(** The function given to [filepath.Walk] when the site is built, for the
    entry [path], a directory or not ([info.IsDir()]), with the [paths]
    gathered so far: the error it returns (nil is [None]) and the paths
    after it. *)
Definition walkFn (servePath : string) (paths : list string)
    (path : string) (isDir : bool) : option error * list string :=
  let base := filepath.Base path in
  let ext := filepath.Ext path in
  if strings.HasPrefix base "_" then
    if isDir then (Some filepath.SkipDir, paths) else (None, paths)
  else if HasSuffix (TrimSuffix base ext) "__id" then (None, paths)
  else if negb isDir then
    let urlPath := strings.TrimPrefix path servePath in
    let urlPath := strings.TrimPrefix urlPath "/" in
    let urlPath := "/" +:+ urlPath in
    if negb (sliceutil.ContainsString paths urlPath)
    then (None, paths ++ [urlPath])
    else (None, paths)
  else (None, paths).

Section Mounts.

(** What a [diecast.ProxyMount] holds besides the two passthrough
    settings, and the other kinds of [diecast.Mount]. *)
Variable ProxyTarget : Type.
Variable OtherMount : Type.

Record ProxyMount : Type := {
  Target : ProxyTarget;
  PassthroughRequests : bool;
  PassthroughErrors : bool
}.

(** [diecast.Mount]: a [*diecast.ProxyMount] or a mount of another type. *)
Inductive Mount : Type :=
| Proxy (proxyMount : ProxyMount)
| Other (mount : OtherMount).

(** [diecast.NewMountFromSpec]: the mount of a specification, or an
    error. *)
Variable NewMountFromSpec : string → Mount + error.

(** The loop over the [--mount] specifications, [i] running over the
    specifications [specs] still to read, with the [mounts] gathered and
    the debug messages [log] written so far.  [passRequests] and
    [passErrors] are the flags [mounts-passthrough-requests] and
    [mounts-passthrough-errors]. *)
Fixpoint mountLoop (passRequests passErrors : bool) (specs : list string)
    (i : nat) (mounts : list Mount) (log : list string)
  : list Mount * list string :=
  match specs with
  | [] => (mounts, log)
  | mountSpec :: rest =>
      match NewMountFromSpec mountSpec with
      | inl (Proxy proxyMount) =>
          let proxyMount :=
            {| Target := Target proxyMount;
               PassthroughRequests := passRequests;
               PassthroughErrors := passErrors |} in
          let log :=
            if PassthroughRequests proxyMount
            then log ++ ["*diecast.ProxyMount " +:+ pretty i
                         +:+ " configured to passthrough client requests"]
            else log in
          let log :=
            if PassthroughErrors proxyMount
            then log ++ ["*diecast.ProxyMount " +:+ pretty i
                         +:+ " configured to consider HTTP 4xx/5xx responses as valid"]
            else log in
          mountLoop passRequests passErrors rest (S i)
            (mounts ++ [Proxy proxyMount]) log
      | inl (Other mount) =>
          mountLoop passRequests passErrors rest (S i)
            (mounts ++ [Other mount]) log
      | inr _ => mountLoop passRequests passErrors rest (S i) mounts log
      end
  end.

End Mounts.

End diecast_main.

Arguments diecast_main.Target {_}.
Arguments diecast_main.PassthroughRequests {_}.
Arguments diecast_main.PassthroughErrors {_}.
Arguments diecast_main.Proxy {_ _}.
Arguments diecast_main.Other {_ _}.
Arguments diecast_main.mountLoop {_ _}.

(* ===================================================================== *)
(** ** Sources and registries of the scenarios *)
(* ===================================================================== *)

(** A source file made of the given comment groups, each a list of lines. *)
Definition sourceOf (groups : list (list string)) : ast.File :=
  {| ast.Comments :=
       map (fun lines => {| ast.List := map ast.Build_Comment lines |}) groups |}.

(** A file system where every name reads as [f]. *)
Definition parses (f : ast.File) : string → parser.Result :=
  fun _ => parser.Parsed f.

Definition tInt : reflect.rtype := reflect.Basic reflect.Int.
Definition tString : reflect.rtype := reflect.Basic reflect.String.
Definition tAny : reflect.rtype := reflect.InterfaceOf [].

(** [func(a int, b int) int] *)
Definition fnAdd : reflect.Value :=
  reflect.Of (reflect.FuncOf [tInt; tInt] [tInt] false).

(** [func(msg string) string] *)
Definition fnEcho : reflect.Value :=
  reflect.Of (reflect.FuncOf [tString] [tString] false).

(** [func(x interface{}) interface{}] *)
Definition fnIdentity : reflect.Value :=
  reflect.Of (reflect.FuncOf [tAny] [tAny] false).

(** [func(format string, args ...interface{}) string] *)
Definition fnSprintf : reflect.Value :=
  reflect.Of (reflect.FuncOf [tString; reflect.SliceOf tAny] [tString] true).

(** [func(xs ...int) int] *)
Definition tSum : reflect.rtype :=
  reflect.FuncOf [reflect.SliceOf tInt] [tInt] true.
Definition fnSum : reflect.Value := reflect.Of tSum.

(** The no-break space U+00A0 in UTF-8. *)
Definition nbsp : string := String "194"%char (String "160"%char "").

(** [func() []string] *)
Definition tList : reflect.rtype :=
  reflect.FuncOf [] [reflect.SliceOf tString] false.
Definition fnList : reflect.Value := reflect.Of tList.

(** [func() Pair[int,string]], the result an instance of the defined
    generic type [type Pair[K, V any] struct{ ... }]. *)
Definition tPair : reflect.rtype :=
  reflect.FuncOf [] [reflect.Named "Pair[int,string]" (reflect.StructOf [])] false.

(** The match of an annotation line (of no use on other lines). *)
Definition matchOf (line : string) : rxutil.MatchResult :=
  default {| rxutil.names := []; rxutil.matches := []; rxutil.all_submatches := [] |}
          (rxutil.Match line rxFnDocString).

Definition scenarioA : ast.File :=
  sourceOf [["// fn Add: adds *a* and *b* together."]].

Definition scenarioB : ast.File :=
  sourceOf [["// fn Multiply: multiplies *a* and *b*."]].

Definition scenarioC : ast.File :=
  sourceOf [["// fn Echo: returns *msg* unchanged."; "// Useful for testing."]].

(* ===================================================================== *)
(** ** Vocabulary of the statements *)
(* ===================================================================== *)

(** The text of a line as it is appended to a docstring. *)
Definition continuation (c : ast.Comment) : string :=
  strings.TrimSpace (strings.TrimPrefix (ast.Text c) "//").

(** The docstring [d] followed by the lines [cs], a space before each. *)
Definition appendLines (d : string) (cs : list ast.Comment) : string :=
  foldl (fun acc c => acc +:+ " " +:+ continuation c) d cs.

(** The records of the groups [gs], from no record. *)
Definition docsOf (funcs : FuncMap) (gs : list ast.CommentGroup) : list functionDoc :=
  (groupLoop funcs gs [] "").1.

(** The number of bytes [c] in [s]. *)
Fixpoint CountByte (c : ascii) (s : string) : nat :=
  match s with
  | EmptyString => 0
  | String x s' => (if Ascii.eqb c x then 1 else 0) + CountByte c s'
  end.

(** The rendered name of a type: the [switch] applied to [Name()]. *)
Definition typeName (t : reflect.rtype) : string := anyName (reflect.Name t).

(** The entry of the parameter of type [inT] at index [i]. *)
Definition inEntry (fnT : reflect.rtype) (inArgNames : list string)
    (i : nat) (inT : reflect.rtype) : string :=
  let typename :=
    if reflect.IsVariadic fnT && (i + 1 =? reflect.NumIn fnT)
    then "..." +:+ typeName inT else typeName inT in
  match inArgNames !! i with
  | Some argName => argName +:+ " " +:+ typename
  | None => typename
  end.

(** The least number of bytes a match of [r] takes. *)
Fixpoint minLen (r : regexp.Regexp) : nat :=
  match r with
  | regexp.Lit l => String.length l
  | regexp.Class _ => 1
  | regexp.Cat r1 r2 => minLen r1 + minLen r2
  | regexp.Repeat min r' => min * minLen r'
  | regexp.Capture _ _ r' => minLen r'
  end.

(** The indices of the capturing groups of [r]. *)
Fixpoint groupIdx (r : regexp.Regexp) : list nat :=
  match r with
  | regexp.Lit _ | regexp.Class _ => []
  | regexp.Cat r1 r2 => groupIdx r1 ++ groupIdx r2
  | regexp.Repeat _ r' => groupIdx r'
  | regexp.Capture i _ r' => i :: groupIdx r'
  end.

(** What reaches the continuation of a successful match: a suffix of the
    text, after at least [minLen r] bytes, with the captures of the groups
    that are not in [r] unchanged. *)
Definition reaches {A : Type} (r : regexp.Regexp) (k : string → list string → option A)
    (s : string) (caps : list string) (res : A) (skipped : nat) : Prop :=
  ∃ p s' caps',
    s = p +:+ s'
    ∧ skipped ≤ String.length p
    ∧ length caps' = length caps
    ∧ (∀ i, i ∉ groupIdx r → caps' !! i = caps !! i)
    ∧ k s' caps' = Some res.

(** The line written when the signature of an annotation line fails. *)
Definition signatureFailed : string :=
  "signature failed: " +:+ errNotFunc +:+ LF.

(** [n] times the text [s]. *)
Fixpoint repeatText (n : nat) (s : string) : string :=
  match n with
  | O => ""
  | S n' => s +:+ repeatText n' s
  end.

(** The group [g] is left on a failed signature: after lines that do not
    end the group comes an annotation line that names a registered value
    and has a docstring, and the value is no function. *)
Definition failsSignature (funcs : FuncMap) (g : ast.CommentGroup) : Prop :=
  ∃ (pre : list ast.Comment) (c : ast.Comment) (post : list ast.Comment)
    (m : rxutil.MatchResult) (fn : reflect.Value),
    ast.List g = pre ++ c :: post
    ∧ is_Some (commentLoop funcs pre emptyDoc "").1
    ∧ rxutil.Match (ast.Text c) rxFnDocString = Some m
    ∧ funcs !! rxutil.Group m "func" = Some fn
    ∧ rxutil.Group m "docstring" ≠ ""
    ∧ typeutil.IsKind (typeutil.ResolveValue fn) reflect.Func = false.

(** How often [true] stands in [l]. *)
Fixpoint countTrue (l : list bool) : nat :=
  match l with
  | [] => 0
  | b :: l' => (if b then 1 else 0) + countTrue l'
  end.

(** The texts of [ps] one after the other. *)
Definition flatten (ps : list string) : string := foldr String.append "" ps.

(** The texts a pattern matches in full. *)
Fixpoint lang (r : regexp.Regexp) (p : string) : Prop :=
  match r with
  | regexp.Lit l => p = l
  | regexp.Class c => ∃ x, p = String x "" ∧ c x = true
  | regexp.Cat r1 r2 => ∃ p1 p2, p = p1 +:+ p2 ∧ lang r1 p1 ∧ lang r2 p2
  | regexp.Repeat min r' =>
      ∃ ps, p = flatten ps ∧ Forall (lang r') ps ∧ min ≤ length ps
  | regexp.Capture _ _ r' => lang r' p
  end.

(** The capturing groups of [r]: index and pattern. *)
Fixpoint groups (r : regexp.Regexp) : list (nat * regexp.Regexp) :=
  match r with
  | regexp.Lit _ | regexp.Class _ => []
  | regexp.Cat r1 r2 => groups r1 ++ groups r2
  | regexp.Repeat _ r' => groups r'
  | regexp.Capture i _ r' => (i, r') :: groups r'
  end.

(** The indices of the groups every match of [r] goes through. *)
Fixpoint mustIdx (r : regexp.Regexp) : list nat :=
  match r with
  | regexp.Lit _ | regexp.Class _ => []
  | regexp.Cat r1 r2 => mustIdx r1 ++ mustIdx r2
  | regexp.Repeat min r' => if min =? 0 then [] else mustIdx r'
  | regexp.Capture i _ r' => i :: mustIdx r'
  end.

(** The capture [i] holds a text matched by one of the groups [gs] of
    that index. *)
Definition setBy (gs : list (nat * regexp.Regexp)) (i : nat)
    (caps : list string) : Prop :=
  ∃ r' q, (i, r') ∈ gs ∧ caps !! i = Some q ∧ lang r' q.

(** What reaches the continuation of a successful match of [r]: the text
    after a prefix that [r] matches in full, with each capture either as it
    was or set by a group of [r], and set when every match goes through such
    a group. *)
Definition matched {A : Type} (r : regexp.Regexp)
    (k : string → list string → option A)
    (s : string) (caps : list string) (res : A) : Prop :=
  ∃ p s' caps',
    s = p +:+ s'
    ∧ lang r p
    ∧ length caps' = length caps
    ∧ (∀ i, caps' !! i = caps !! i ∨ setBy (groups r) i caps')
    ∧ (∀ i, i ∈ mustIdx r → i < length caps → setBy (groups r) i caps')
    ∧ k s' caps' = Some res.

(** Whether every byte of [s] is in the class [c]. *)
Fixpoint allBytes (c : ascii → bool) (s : string) : bool :=
  match s with
  | EmptyString => true
  | String x s' => c x && allBytes c s'
  end.

(** The paths gathered after the function of the walk has run on the
    entries [visits] (path, directory or not), in order. *)
Definition gathered (servePath : string) (visits : list (string * bool))
    (paths : list string) : list string :=
  foldl (fun ps v => (diecast_main.walkFn servePath ps v.1 v.2).2) paths visits.

(** A byte that is no path separator. *)
Definition noSeparator (c : ascii) : bool := negb (filepath.isSeparator c).

(** A byte that is neither a path separator nor a dot. *)
Definition noSeparatorNoDot (c : ascii) : bool :=
  negb (filepath.isSeparator c) && negb (Ascii.eqb c "."%char).

(** The mounts the loop of the mounts adds and the messages it writes, from
    the first specification and no mount. *)
Definition mountsOf {ProxyTarget OtherMount : Type}
    (NewMountFromSpec : string → diecast_main.Mount ProxyTarget OtherMount + error)
    (passRequests passErrors : bool) (specs : list string)
  : list (diecast_main.Mount ProxyTarget OtherMount) :=
  (diecast_main.mountLoop NewMountFromSpec passRequests passErrors specs 0 [] []).1.

(** Whether the text is empty or begins with a byte outside the class. *)
Definition stopsAt (c : ascii → bool) (s : string) : bool :=
  match s with
  | EmptyString => true
  | String x _ => negb (c x)
  end.

(* ===================================================================== *)
(** ** Facts on strings *)
(* ===================================================================== *)

Lemma append_cons (x : ascii) (a b : string) :
  String x a +:+ b = String x (a +:+ b).
Proof. reflexivity. Qed.

Lemma append_assoc (a b c : string) : (a +:+ b) +:+ c = a +:+ b +:+ c.
Proof.
  induction a as [|x a IH]; [done|]. by rewrite !append_cons, IH.
Qed.

Lemma append_not_empty (a b : string) : a ≠ "" → a +:+ b ≠ "".
Proof. destruct a; [done|]. intros _. by rewrite append_cons. Qed.

Lemma length_append (a b : string) :
  String.length (a +:+ b) = String.length a + String.length b.
Proof.
  induction a as [|x a IH]; [done|]. rewrite append_cons. simpl. by rewrite IH.
Qed.

Lemma CountByte_app c (a b : string) :
  CountByte c (a +:+ b) = CountByte c a + CountByte c b.
Proof.
  induction a as [|x a IH]; [done|].
  rewrite append_cons. simpl. rewrite IH. lia.
Qed.

Lemma CountByte_empty_iff c (s : string) : 1 ≤ CountByte c s → s ≠ "".
Proof. intros H ->. simpl in H. lia. Qed.

Lemma Split_go_comma_length (s : string) :
  ∀ cur, length (strings.Split_go "," 0 cur s) = S (CountByte ","%char s).
Proof.
  induction s as [|x s IH]; intros cur; [done|].
  cbn [strings.Split_go strings.HasPrefix CountByte].
  rewrite andb_true_r.
  destruct (Ascii.eqb ","%char x); cbn [String.length Nat.sub length];
    rewrite IH; lia.
Qed.

(** Splitting at the commas gives one piece more than there are commas. *)
Lemma Split_comma_length (s : string) :
  length (strings.Split s ",") = S (CountByte ","%char s).
Proof. apply Split_go_comma_length. Qed.

Lemma Join_cons (e : string) (rest : list string) (sep : string) :
  rest ≠ [] → strings.Join (e :: rest) sep = e +:+ sep +:+ strings.Join rest sep.
Proof. by destruct rest. Qed.

(** Two or more elements joined by [", "] hold a comma. *)
Lemma Join_two_has_comma (a b : string) (rest : list string) :
  1 ≤ CountByte ","%char (strings.Join (a :: b :: rest) ", ").
Proof.
  rewrite Join_cons by done. rewrite !CountByte_app.
  change (CountByte ","%char ", ") with 1. lia.
Qed.

Lemma HasPrefix_drop (l s : string) :
  strings.HasPrefix s l = true → s = l +:+ strings.drop (String.length l) s.
Proof.
  revert s. induction l as [|x l IH]; intros s H; [done|].
  destruct s as [|c s]; [done|]. simpl in H.
  apply andb_true_iff in H as [Hx Hl]. apply Ascii.eqb_eq in Hx as ->.
  rewrite append_cons. simpl. f_equal. by apply IH.
Qed.

Lemma take_app (p s : string) : strings.take (String.length p) (p +:+ s) = p.
Proof.
  induction p as [|x p IH]; [by destruct s|].
  rewrite append_cons. simpl. by rewrite IH.
Qed.

(* ===================================================================== *)
(** ** What a match of the matcher consumes and captures *)
(* ===================================================================== *)

(** The text consumed in front of a suffix is the prefix. *)
Lemma consumed_app (p s : string) : regexp.consumed (p +:+ s) s = p.
Proof.
  unfold regexp.consumed. rewrite length_append.
  replace (String.length p + String.length s - String.length s)
    with (String.length p) by lia.
  apply take_app.
Qed.

Lemma rxMatch_reaches {A : Type} (r : regexp.Regexp) :
  ∀ s caps (k : string → list string → option A) res,
    regexp.rxMatch r s caps k = Some res → reaches r k s caps res (minLen r).
Proof.
  induction r as [l|cl|r1 IH1 r2 IH2|min r IH|i name r IH];
    intros s caps k res H; simpl in H.
  - destruct (strings.HasPrefix s l) eqn:Hp; [|done].
    exists l, (strings.drop (String.length l) s), caps.
    split; [by apply HasPrefix_drop|]. simpl. done.
  - destruct s as [|c s]; [done|]. destruct (cl c); [|done].
    exists (String c ""), s, caps. simpl. repeat split; [lia|done].
  - apply IH1 in H as (p1 & s1 & caps1 & -> & Hl1 & Hc1 & Hf1 & H).
    apply IH2 in H as (p2 & s2 & caps2 & -> & Hl2 & Hc2 & Hf2 & H).
    exists (p1 +:+ p2), s2, caps2. rewrite append_assoc, length_append.
    simpl. repeat split; [lia|congruence| |done].
    intros j Hj. rewrite Hf2, Hf1; [done|set_solver..].
  - assert (∀ n s caps,
              (if min <=? n then k s caps else None) = Some res →
              reaches r k s caps res ((min - n) * minLen r)) as Hstop.
    { intros n s0 caps0 H0. destruct (min <=? n) eqn:Hmin; [|done].
      apply Nat.leb_le in Hmin. exists "", s0, caps0.
      replace (min - n) with 0 by lia. simpl. done. }
    assert (∀ fuel n s caps,
      (fix loop (fuel n : nat) (s : string) (caps : list string) {struct fuel}
         : option A :=
         match fuel with
         | 0 => if min <=? n then k s caps else None
         | S fuel' =>
             match regexp.rxMatch r s caps
                     (fun s' caps' =>
                        if String.length s' <? String.length s
                        then loop fuel' (S n) s' caps' else None) with
             | Some a => Some a
             | None => if min <=? n then k s caps else None
             end
         end) fuel n s caps = Some res →
      reaches r k s caps res ((min - n) * minLen r)) as Hloop.
    { induction fuel as [|fuel IHf]; intros n s0 caps0 H0; [by apply Hstop|].
      match type of H0 with
      | match ?X with _ => _ end = _ => destruct X as [a|] eqn:E
      end; [|by apply Hstop].
      simplify_eq.
      apply IH in E as (p1 & s1 & caps1 & -> & Hl1 & Hc1 & Hf1 & E).
      destruct (String.length s1 <? String.length (p1 +:+ s1)); [|done].
      apply IHf in E as (p2 & s2 & caps2 & -> & Hl2 & Hc2 & Hf2 & E).
      exists (p1 +:+ p2), s2, caps2. rewrite append_assoc, length_append.
      repeat split; [nia|congruence| |done].
      intros j Hj. by rewrite Hf2, Hf1. }
    apply Hloop in H. by rewrite Nat.sub_0_r in H.
  - apply IH in H as (p & s' & caps' & -> & Hl & Hc & Hf & H).
    rewrite consumed_app in H.
    exists p, s', (<[i := p]> caps'). simpl.
    repeat split; [done|by rewrite length_insert| |done].
    intros j Hj. rewrite list_lookup_insert_ne by set_solver.
    apply Hf. set_solver.
Qed.

Lemma rxMatch_Cat {A : Type} (r1 r2 : regexp.Regexp) s caps
    (k : string → list string → option A) :
  regexp.rxMatch (regexp.Cat r1 r2) s caps k
  = regexp.rxMatch r1 s caps (fun s' caps' => regexp.rxMatch r2 s' caps' k).
Proof. reflexivity. Qed.

Lemma rxMatch_Capture {A : Type} i name (r : regexp.Regexp) s caps
    (k : string → list string → option A) :
  regexp.rxMatch (regexp.Capture i name r) s caps k
  = regexp.rxMatch r s caps
      (fun s' caps' => k s' (<[i := regexp.consumed s s']> caps')).
Proof. reflexivity. Qed.

Lemma leftmost_matchHere (r : regexp.Regexp) (s : string) m :
  regexp.leftmost r s = Some m → ∃ s0, regexp.matchHere r s0 = Some m.
Proof.
  induction s as [|c s IH]; simpl; intros H.
  - destruct (regexp.matchHere r "") eqn:E; [|done]. exists "". congruence.
  - destruct (regexp.matchHere r (String c s)) eqn:E; [|by apply IH].
    exists (String c s). congruence.
Qed.

(** The function name of an annotation line is never empty: its group
    takes one byte or more. *)
Lemma annotation_name_not_empty (s : string) (m : rxutil.MatchResult) :
  rxutil.Match s rxFnDocString = Some m → rxutil.Group m "func" ≠ "".
Proof.
  unfold rxutil.Match, regexp.FindStringSubmatch.
  destruct (regexp.leftmost rxFnDocString s) as [[ms rest]|] eqn:E; [|done].
  simpl. intros [= <-].
  change (default "" (ms !! 1) ≠ "").
  apply leftmost_matchHere in E as [s0 E]. unfold regexp.matchHere in E.
  change (length (regexp.SubexpNames rxFnDocString)) with 3 in E.
  cbv [rxFnDocString Concat foldr] in E.
  (* the four parts in front of the group of the name *)
  rewrite rxMatch_Cat in E.
  apply rxMatch_reaches in E as (? & ? & c1 & -> & _ & Hl1 & _ & E).
  rewrite rxMatch_Cat in E.
  apply rxMatch_reaches in E as (? & ? & c2 & -> & _ & Hl2 & _ & E).
  rewrite rxMatch_Cat in E.
  apply rxMatch_reaches in E as (? & ? & c3 & -> & _ & Hl3 & _ & E).
  rewrite rxMatch_Cat in E.
  apply rxMatch_reaches in E as (? & ? & c4 & -> & _ & Hl4 & _ & E).
  assert (length c4 = 3) as Hlen by (simpl in Hl1; congruence).
  clear Hl1 Hl2 Hl3 Hl4.
  rewrite rxMatch_Cat, rxMatch_Capture in E.
  apply rxMatch_reaches in E as (p & s5 & caps5 & -> & Hp & Hlen5 & _ & E).
  rewrite consumed_app in E.
  apply rxMatch_reaches in E as (? & s6 & caps6 & -> & _ & Hlen6 & Hf & E).
  simplify_eq.
  rewrite list_lookup_insert_ne by done.
  rewrite Hf by (cbn [groupIdx app]; apply not_elem_of_cons; split;
                 [lia | apply not_elem_of_nil]).
  rewrite list_lookup_insert_eq by lia. simpl.
  destruct p; [simpl in Hp; lia|done].
Qed.

(** The annotation of the line of scenario B. *)
Lemma scenarioB_annotation :
  ∃ m, rxutil.Match "// fn Multiply: multiplies *a* and *b*." rxFnDocString = Some m
       ∧ rxutil.Group m "func" = "Multiply"
       ∧ rxutil.Group m "docstring" = "multiplies *a* and *b*.".
Proof. eexists. split; [vm_compute; reflexivity|]. by vm_compute. Qed.

(* ===================================================================== *)
(** ** The signature of a function value *)
(* ===================================================================== *)

Lemma Kind_eqb_eq (a b : reflect.Kind) : reflect.Kind_eqb a b = true ↔ a = b.
Proof. split; [by destruct a, b | intros ->; by destruct b]. Qed.

Lemma ResolveValue_idemp (v : reflect.Value) :
  typeutil.ResolveValue (typeutil.ResolveValue v) = typeutil.ResolveValue v.
Proof. induction v; simpl; auto. Qed.

(** A resolved value is of kind [Func] exactly when it is a value of a type
    of that kind. *)
Lemma IsKind_Func_iff (v : reflect.Value) :
  typeutil.IsKind v reflect.Func = true ↔
  ∃ fnT, typeutil.ResolveValue v = reflect.Of fnT
         ∧ reflect.TypeKind fnT = reflect.Func.
Proof.
  unfold typeutil.IsKind. destruct (typeutil.ResolveValue v) as [|t|e]; simpl.
  - split; [done | by intros (? & ? & ?)].
  - rewrite Kind_eqb_eq. split; [eauto | by intros (? & [= ->] & ?)].
  - split; [done | by intros (? & ? & ?)].
Qed.

Lemma inLoop_spec (fnT : reflect.rtype) (inArgNames : list string)
    (rest : list reflect.rtype) :
  ∀ i args,
    inLoop fnT inArgNames rest i args
    = args ++ imap (fun j => inEntry fnT inArgNames (i + j)) rest.
Proof.
  induction rest as [|inT rest IH]; intros i args; simpl.
  - by rewrite app_nil_r.
  - rewrite IH, <- app_assoc. simpl. unfold inEntry at 2, typeName.
    rewrite Nat.add_0_r. do 2 f_equal.
    apply imap_ext. intros j t _. simpl. f_equal. lia.
Qed.

Lemma outLoop_spec (rest : list reflect.rtype) :
  ∀ outs, outLoop rest outs = outs ++ map typeName rest.
Proof.
  induction rest as [|outT rest IH]; intros outs; simpl.
  - by rewrite app_nil_r.
  - by rewrite IH, <- app_assoc.
Qed.

(** What [getFnSignature] returns for a value of kind [Func]. *)
Lemma getFnSignature_func (fn : reflect.Value) (fnT : reflect.rtype)
    (inArgNames : list string) :
  typeutil.ResolveValue fn = reflect.Of fnT →
  reflect.TypeKind fnT = reflect.Func →
  getFnSignature fn inArgNames =
  (strings.Join (imap (inEntry fnT inArgNames) (reflect.Ins fnT)) ", ",
   strings.Join (map typeName (reflect.Outs fnT)) ", ", None).
Proof.
  intros Hv Hk. unfold getFnSignature.
  assert (typeutil.IsKind (typeutil.ResolveValue fn) reflect.Func = true) as ->.
  { apply IsKind_Func_iff. exists fnT. by rewrite ResolveValue_idemp. }
  rewrite Hv. simpl. rewrite inLoop_spec, outLoop_spec. done.
Qed.

(** What [getFnSignature] returns for any other value. *)
Lemma getFnSignature_not_func (fn : reflect.Value) (inArgNames : list string) :
  typeutil.IsKind (typeutil.ResolveValue fn) reflect.Func = false →
  getFnSignature fn inArgNames = ("", "", Some errNotFunc).
Proof. intros H. unfold getFnSignature. by rewrite H. Qed.

Lemma getFnSignature_ok_inv (fn : reflect.Value) (inArgNames : list string)
    (signature outputs : string) :
  getFnSignature fn inArgNames = (signature, outputs, None) →
  ∃ fnT, typeutil.ResolveValue fn = reflect.Of fnT
         ∧ reflect.TypeKind fnT = reflect.Func
         ∧ signature = strings.Join (imap (inEntry fnT inArgNames) (reflect.Ins fnT)) ", "
         ∧ outputs = strings.Join (map typeName (reflect.Outs fnT)) ", ".
Proof.
  intros H.
  destruct (typeutil.IsKind (typeutil.ResolveValue fn) reflect.Func) eqn:Hk.
  - apply IsKind_Func_iff in Hk as (fnT & Hv & Hk).
    rewrite ResolveValue_idemp in Hv.
    rewrite (getFnSignature_func fn fnT inArgNames Hv Hk) in H.
    exists fnT. by simplify_eq.
  - by rewrite getFnSignature_not_func in H.
Qed.

(* ===================================================================== *)
(** ** The loop over the lines of one group *)
(* ===================================================================== *)

(** One case per way through the body of the loop over [group.List]. *)
Ltac line_cases funcs doc c :=
  let m := fresh "m" in
  let fn := fresh "fn" in
  destruct (rxutil.Match (ast.Text c) rxFnDocString) as [m|] eqn:?;
  [ destruct (funcs !! rxutil.Group m "func") as [fn|] eqn:?;
    [ destruct (String.eqb (rxutil.Group m "docstring") "") eqn:?;
      [ | destruct (getFnSignature fn (argNamesOf (rxutil.Group m "docstring")))
            as [[? ?] [?|]] eqn:? ]
    | ]
  | destruct (String.eqb (Name doc) "") eqn:? ].

(** The loop writes only when it leaves the group on a failed signature. *)
Lemma commentLoop_out (funcs : FuncMap) (cs : list ast.Comment) :
  ∀ doc out d o, commentLoop funcs cs doc out = (Some d, o) → o = out.
Proof.
  induction cs as [|c cs IH]; intros doc out d o H; simpl in H.
  - by inversion H.
  - line_cases funcs doc c; simpl in H; try discriminate; eauto.
Qed.

(** The record a group completes with does not depend on what was
    written before. *)
Lemma commentLoop_docs_out (funcs : FuncMap) (cs : list ast.Comment) :
  ∀ doc out out',
    (commentLoop funcs cs doc out).1 = (commentLoop funcs cs doc out').1.
Proof.
  induction cs as [|c cs IH]; intros doc out out'; simpl.
  - done.
  - line_cases funcs doc c; simpl; eauto.
Qed.

(** Scanning [pre ++ post] is scanning [post] from the record [pre] ends
    with, unless [pre] already left the group. *)
Lemma commentLoop_app (funcs : FuncMap) (pre post : list ast.Comment) :
  ∀ doc out,
    commentLoop funcs (pre ++ post) doc out =
    match commentLoop funcs pre doc out with
    | (Some d, o) => commentLoop funcs post d o
    | (None, o) => (None, o)
    end.
Proof.
  induction pre as [|c pre IH]; intros doc out; simpl.
  - done.
  - line_cases funcs doc c; simpl; eauto.
Qed.

(** An accepted annotation line replaces the whole record. *)
Lemma commentLoop_accept (funcs : FuncMap) c rest doc out m fn signature outputs :
  rxutil.Match (ast.Text c) rxFnDocString = Some m →
  funcs !! rxutil.Group m "func" = Some fn →
  rxutil.Group m "docstring" ≠ "" →
  getFnSignature fn (argNamesOf (rxutil.Group m "docstring"))
    = (signature, outputs, None) →
  commentLoop funcs (c :: rest) doc out =
  commentLoop funcs rest
    {| Name := rxutil.Group m "func"; DocString := rxutil.Group m "docstring";
       Signature := signature; Returns := outputs |} out.
Proof.
  intros Hm Hf Hd Hs. simpl. rewrite Hm, Hf.
  apply String.eqb_neq in Hd. by rewrite Hd, Hs.
Qed.

(** An annotation line whose signature fails leaves the group. *)
Lemma commentLoop_signature_failed (funcs : FuncMap) c rest doc out m fn s o err :
  rxutil.Match (ast.Text c) rxFnDocString = Some m →
  funcs !! rxutil.Group m "func" = Some fn →
  rxutil.Group m "docstring" ≠ "" →
  getFnSignature fn (argNamesOf (rxutil.Group m "docstring")) = (s, o, Some err) →
  commentLoop funcs (c :: rest) doc out =
  (None, out +:+ "signature failed: " +:+ err +:+ LF).
Proof.
  intros Hm Hf Hd Hs. simpl. rewrite Hm, Hf.
  apply String.eqb_neq in Hd. by rewrite Hd, Hs.
Qed.

(** An annotation line that names no registered function, or has no
    docstring, changes nothing. *)
Lemma commentLoop_ignored (funcs : FuncMap) c rest doc out m :
  rxutil.Match (ast.Text c) rxFnDocString = Some m →
  funcs !! rxutil.Group m "func" = None ∨ rxutil.Group m "docstring" = "" →
  commentLoop funcs (c :: rest) doc out = commentLoop funcs rest doc out.
Proof.
  intros Hm H. simpl. rewrite Hm.
  destruct H as [-> | ->]; [done|]. by destruct (funcs !! _).
Qed.

(** Lines that are no annotation lines, met with a name set, are all
    appended and the group completes. *)
Lemma commentLoop_continuations (funcs : FuncMap) (cs : list ast.Comment) :
  ∀ doc out,
    Name doc ≠ "" →
    Forall (fun c => rxutil.Match (ast.Text c) rxFnDocString = None) cs →
    commentLoop funcs cs doc out =
    (Some {| Name := Name doc; DocString := appendLines (DocString doc) cs;
             Signature := Signature doc; Returns := Returns doc |}, out).
Proof.
  induction cs as [|c cs IH]; intros doc out Hn Hcs.
  - by destruct doc.
  - inversion Hcs as [|? ? Hc Hcs']; subst. simpl. rewrite Hc.
    apply String.eqb_neq in Hn. rewrite Hn. simpl.
    rewrite IH; [done| |done]. simpl. by apply String.eqb_neq.
Qed.

(** A record a group completes with is the empty record of a group whose
    lines were all annotation lines without effect, or it names a
    registered function and has a docstring. *)
Lemma emitted_record_cases (funcs : FuncMap) (cs : list ast.Comment) :
  ∀ doc out d o,
    commentLoop funcs cs doc out = (Some d, o) →
    doc = emptyDoc ∨ (is_Some (funcs !! Name doc) ∧ DocString doc ≠ "") →
    d = emptyDoc ∨ (is_Some (funcs !! Name d) ∧ DocString d ≠ "").
Proof.
  induction cs as [|c cs IH]; intros doc out d o H Hdoc; simpl in H.
  - by simplify_eq.
  - line_cases funcs doc c; simpl in H; try discriminate; eauto.
    + eapply IH; [exact H|]. right. simpl. split; [eauto|].
      by apply String.eqb_neq.
    + eapply IH; [exact H|]. right. simpl.
      destruct Hdoc as [->|[? ?]]; [done|].
      split; [done|]. by apply append_not_empty.
Qed.

(* ===================================================================== *)
(** ** The loop over the groups *)
(* ===================================================================== *)

Lemma groupLoop_docs (funcs : FuncMap) (gs : list ast.CommentGroup) :
  ∀ docs out, (groupLoop funcs gs docs out).1 = docs ++ docsOf funcs gs.
Proof.
  unfold docsOf.
  induction gs as [|g gs IH]; intros docs out; simpl.
  - by rewrite app_nil_r.
  - pose proof (commentLoop_docs_out funcs (ast.List g) emptyDoc out "") as E.
    destruct (commentLoop funcs (ast.List g) emptyDoc out) as [[d|] o];
      destruct (commentLoop funcs (ast.List g) emptyDoc "") as [[d'|] o'];
      simpl in E; simplify_eq.
    + rewrite (IH (docs ++ [d']) o), (IH [d'] o'). by rewrite <- app_assoc.
    + rewrite (IH docs o), (IH [] o'). done.
Qed.

Lemma docsOf_app (funcs : FuncMap) (gs1 gs2 : list ast.CommentGroup) :
  docsOf funcs (gs1 ++ gs2) = docsOf funcs gs1 ++ docsOf funcs gs2.
Proof.
  induction gs1 as [|g gs1 IH]; [done|].
  unfold docsOf at 1 2. simpl.
  destruct (commentLoop funcs (ast.List g) emptyDoc "") as [[d|] o].
  - rewrite !groupLoop_docs, IH. by rewrite app_assoc.
  - rewrite !groupLoop_docs, IH. done.
Qed.

(** What one group adds to the records. *)
Lemma docsOf_cons (funcs : FuncMap) g gs :
  docsOf funcs (g :: gs) =
  match (commentLoop funcs (ast.List g) emptyDoc "").1 with
  | Some doc => doc :: docsOf funcs gs
  | None => docsOf funcs gs
  end.
Proof.
  unfold docsOf at 1. simpl.
  destruct (commentLoop funcs (ast.List g) emptyDoc "") as [[d|] o]; simpl.
  - by rewrite groupLoop_docs.
  - by rewrite groupLoop_docs.
Qed.

Lemma GenerateFunctionDocs_parsed ParseFile (funcs : FuncMap) sourcefile source :
  ParseFile sourcefile = parser.Parsed source →
  (GenerateFunctionDocs ParseFile funcs sourcefile).1
  = (Some (docsOf funcs (ast.Comments source)), None).
Proof.
  intros H. unfold GenerateFunctionDocs. rewrite H.
  pose proof (groupLoop_docs funcs (ast.Comments source) [] "") as E.
  destruct (groupLoop funcs (ast.Comments source) [] "") as [docs out].
  simpl in *. by rewrite E.
Qed.

(* ===================================================================== *)
(** ** The claims *)
(* ===================================================================== *)

(** C1, as the code behaves: with a registry that does not hold
    "Multiply", the group made of the single line
    [// fn Multiply: multiplies *a* and *b*.] never becomes active (no
    annotation is accepted), and still one record, the empty one, is
    appended for it. *)
Theorem C1_unregistered_annotation_emits_empty_record (funcs : FuncMap) :
  funcs !! "Multiply" = None →
  GenerateFunctionDocs (parses scenarioB) funcs "functions.go"
  = (Some [emptyDoc], None, "").
Proof.
  intros Hf. destruct scenarioB_annotation as (m & Hm & Hn & Hd).
  unfold GenerateFunctionDocs, parses, scenarioB, sourceOf.
  cbn [map ast.Comments ast.List groupLoop].
  rewrite (commentLoop_ignored funcs (ast.Build_Comment _) [] emptyDoc "" m Hm);
    [done|].
  left. by rewrite Hn.
Qed.

(** Scenario B with the empty registry. *)
Lemma C1_unregistered_annotation_emits_empty_record_witness :
  (∅ : FuncMap) !! "Multiply" = None
  ∧ GenerateFunctionDocs (parses scenarioB) ∅ "functions.go"
    = (Some [emptyDoc], None, "").
Proof.
  split; [reflexivity|].
  apply (C1_unregistered_annotation_emits_empty_record ∅). reflexivity.
Defined.

(** C2, as the code behaves: the list returned for scenario B with the
    registry {"Add"} holds a record whose name is not in the registry and
    whose docstring is empty, for a group that never became active. *)
Theorem C2_returned_record_outside_registry :
  ∃ doc,
    GenerateFunctionDocs (parses scenarioB) {["Add" := fnAdd]} "functions.go"
    = (Some [doc], None, "")
    ∧ ({["Add" := fnAdd]} : FuncMap) !! Name doc = None
    ∧ DocString doc = "".
Proof. exists emptyDoc. by vm_compute. Qed.

(** C3, as stated, fails: for scenario A the program does not write the
    docstring line without its emphasis markers. *)
Lemma C3_scenario_A_markers_not_removed :
  main (parses scenarioA) {["Add" := fnAdd]}
  ≠ "Add(a int, b int) int" +:+ LF +:+ "adds a and b together." +:+ LF +:+ LF.
Proof. apply String.eqb_neq. by vm_compute. Qed.

(** C3, amended: with the registry {"Add": func(a int, b int) int} and the
    single line [// fn Add: adds *a* and *b* together.] the program writes
    exactly the line [Add(a int, b int) int], the docstring line
    [adds *a* and *b* together.] with its emphasis markers, and an empty
    line. *)
Theorem C3_scenario_A_output :
  main (parses scenarioA) {["Add" := fnAdd]}
  = "Add(a int, b int) int" +:+ LF +:+ "adds *a* and *b* together." +:+ LF +:+ LF.
Proof. by vm_compute. Qed.

(** The last entry of the rendered parameters of a variadic function: the
    rendered name of the type of the last parameter with [...] in front,
    after the argument name and a space when there is an argument name at
    that index. *)
Lemma variadic_last_entry (fn : reflect.Value) (fnT : reflect.rtype)
    (inArgNames : list string) (front : list reflect.rtype)
    (lastT : reflect.rtype) :
  typeutil.ResolveValue fn = reflect.Of fnT →
  reflect.TypeKind fnT = reflect.Func →
  reflect.IsVariadic fnT = true →
  reflect.Ins fnT = front ++ [lastT] →
  ∃ init outputs,
    length init = length front ∧
    getFnSignature fn inArgNames =
    (strings.Join
       (init ++ [match inArgNames !! length front with
                 | Some argName => argName +:+ " " +:+ "..." +:+ typeName lastT
                 | None => "..." +:+ typeName lastT
                 end]) ", ",
     outputs, None).
Proof.
  intros Hv Hk Hvar Hins.
  rewrite (getFnSignature_func fn fnT inArgNames Hv Hk).
  rewrite Hins, imap_app. simpl.
  exists (imap (inEntry fnT inArgNames) front). eexists.
  split; [by rewrite length_imap|].
  do 3 f_equal. unfold inEntry, reflect.NumIn.
  rewrite Hvar, Hins, length_app, Nat.add_0_r. simpl.
  by rewrite Nat.eqb_refl.
Qed.

(** C4, as the code behaves: the last parameter of a variadic function,
    declared [...T], is of the slice type [[]T], which has no name; so the
    last entry of the rendered parameters is [...] alone, or the argument
    name, a space and [...] when there is an argument name at that index:
    the name of [T] is never in it. *)
Theorem C4_variadic_renders_bare_dots (fn : reflect.Value) (fnT : reflect.rtype)
    (inArgNames : list string) (front : list reflect.rtype)
    (elemT : reflect.rtype) :
  typeutil.ResolveValue fn = reflect.Of fnT →
  reflect.TypeKind fnT = reflect.Func →
  reflect.IsVariadic fnT = true →
  reflect.Ins fnT = front ++ [reflect.SliceOf elemT] →
  ∃ init outputs,
    length init = length front ∧
    getFnSignature fn inArgNames =
    (strings.Join
       (init ++ [match inArgNames !! length front with
                 | Some argName => argName +:+ " ..."
                 | None => "..."
                 end]) ", ",
     outputs, None).
Proof.
  intros Hv Hk Hvar Hins.
  destruct (variadic_last_entry fn fnT inArgNames front (reflect.SliceOf elemT)
              Hv Hk Hvar Hins) as (init & outputs & Hlen & Hs).
  exists init, outputs. split; [done|]. rewrite Hs.
  by destruct (inArgNames !! length front).
Qed.

(** [func(xs ...int) int] with the argument name [xs]: the parameter is
    rendered [xs ...], without [int]. *)
Lemma C4_variadic_renders_bare_dots_witness :
  ∃ init outputs,
    length init = 0 ∧
    getFnSignature fnSum ["xs"] =
    (strings.Join (init ++ ["xs" +:+ " ..."]) ", ", outputs, None).
Proof.
  apply (C4_variadic_renders_bare_dots fnSum tSum ["xs"] [] tInt); reflexivity.
Defined.

(** C5, as the code behaves: for [func(x interface{}) interface{}] the
    parameter is rendered as the argument name, a space and an empty type
    name, and the return value as the empty text: the name [any] appears at
    neither position. *)
Theorem C5_empty_interface_renders_empty_name (argName : string) :
  getFnSignature fnIdentity [argName] = (argName +:+ " ", "", None)
  ∧ getFnSignature fnIdentity [] = ("", "", None).
Proof.
  split; [|by vm_compute].
  by rewrite (getFnSignature_func fnIdentity
                (reflect.FuncOf [tAny] [tAny] false)).
Qed.

(** C6, as stated, fails: for scenario C the docstring of the record is
    not the text without the emphasis markers. *)
Lemma C6_scenario_C_markers_not_removed :
  DocString <$> default [] (GenerateFunctionDocs (parses scenarioC)
                              {["Echo" := fnEcho]} "functions.go").1.1
  ≠ ["returns msg unchanged. Useful for testing."].
Proof. vm_compute. discriminate. Qed.

(** C6, amended: for scenario C, with "Echo" registered as
    [func(msg string) string], the docstring of the record is
    "returns *msg* unchanged. Useful for testing.", the emphasis markers
    kept; and in every group, once a name is set, each line that is no
    annotation line is appended to the docstring, its comment marker
    stripped and its white space trimmed, after a single space. *)
Theorem C6_continuation_lines_appended :
  GenerateFunctionDocs (parses scenarioC) {["Echo" := fnEcho]} "functions.go"
  = (Some [{| Name := "Echo";
              DocString := "returns *msg* unchanged. Useful for testing.";
              Signature := "msg string"; Returns := "string" |}], None, "")
  ∧ ∀ (funcs : FuncMap) (doc : functionDoc) (cs : list ast.Comment) (out : string),
      Name doc ≠ "" →
      Forall (fun c => rxutil.Match (ast.Text c) rxFnDocString = None) cs →
      commentLoop funcs cs doc out
      = (Some {| Name := Name doc;
                 DocString :=
                   foldl (fun acc c =>
                            acc +:+ " " +:+
                            strings.TrimSpace (strings.TrimPrefix (ast.Text c) "//"))
                         (DocString doc) cs;
                 Signature := Signature doc; Returns := Returns doc |}, out).
Proof.
  split; [by vm_compute|].
  intros funcs doc cs out Hn Hcs.
  by rewrite (commentLoop_continuations funcs cs doc out Hn Hcs).
Qed.

(** One line appended to the docstring of "Echo", with a no-break space
    and blanks at both ends of its text. *)
Lemma C6_continuation_lines_appended_witness :
  commentLoop ∅
    [ast.Build_Comment ("//" +:+ nbsp +:+ " Useful for testing. " +:+ nbsp)]
    {| Name := "Echo"; DocString := "returns *msg* unchanged.";
       Signature := "msg string"; Returns := "string" |} ""
  = (Some {| Name := "Echo";
             DocString := "returns *msg* unchanged. Useful for testing.";
             Signature := "msg string"; Returns := "string" |}, "").
Proof.
  apply (proj2 C6_continuation_lines_appended ∅
           {| Name := "Echo"; DocString := "returns *msg* unchanged.";
              Signature := "msg string"; Returns := "string" |}
           [ast.Build_Comment ("//" +:+ nbsp +:+ " Useful for testing. " +:+ nbsp)]
           "").
  - discriminate.
  - repeat constructor.
Defined.

(** C7: [getFnSignature] returns an error exactly when the resolved value
    is not of kind [Func]; and when the signature of an annotation line
    fails in a group (whose earlier lines did not leave it), that group
    adds no record, the groups before and after it add theirs, and
    [GenerateFunctionDocs] returns a nil error. *)
Theorem C7_signature_failure_is_local :
  (∀ (fn : reflect.Value) (inArgNames : list string),
      (getFnSignature fn inArgNames).2 ≠ None
      ↔ typeutil.IsKind (typeutil.ResolveValue fn) reflect.Func = false)
  ∧ ∀ (ParseFile : string → parser.Result) (funcs : FuncMap) (sourcefile : string)
      (before after : list ast.CommentGroup) (pre post : list ast.Comment)
      (c : ast.Comment) (m : rxutil.MatchResult) (fn : reflect.Value),
      ParseFile sourcefile
      = parser.Parsed {| ast.Comments :=
                           before ++ {| ast.List := pre ++ c :: post |} :: after |} →
      is_Some (commentLoop funcs pre emptyDoc "").1 →
      rxutil.Match (ast.Text c) rxFnDocString = Some m →
      funcs !! rxutil.Group m "func" = Some fn →
      rxutil.Group m "docstring" ≠ "" →
      typeutil.IsKind (typeutil.ResolveValue fn) reflect.Func = false →
      (commentLoop funcs (pre ++ c :: post) emptyDoc "").1 = None
      ∧ (GenerateFunctionDocs ParseFile funcs sourcefile).1
        = (Some (docsOf funcs before ++ docsOf funcs after), None).
Proof.
  split.
  - intros fn inArgNames.
    destruct (typeutil.IsKind (typeutil.ResolveValue fn) reflect.Func) eqn:Hk.
    + apply IsKind_Func_iff in Hk as (fnT & Hv & Hk).
      rewrite ResolveValue_idemp in Hv.
      rewrite (getFnSignature_func fn fnT inArgNames Hv Hk). simpl.
      split; [done|discriminate].
    + by rewrite getFnSignature_not_func.
  - intros ParseFile funcs sourcefile before after pre post c m fn
      Hparse [d Hpre] Hm Hf Hd Hk.
    assert ((commentLoop funcs (pre ++ c :: post) emptyDoc "").1 = None) as Hg.
    { rewrite commentLoop_app.
      destruct (commentLoop funcs pre emptyDoc "") as [[d'|] o]; [|done].
      by rewrite (commentLoop_signature_failed funcs c post d' o m fn "" ""
                    errNotFunc Hm Hf Hd (getFnSignature_not_func fn _ Hk)). }
    split; [done|].
    rewrite (GenerateFunctionDocs_parsed ParseFile funcs sourcefile _ Hparse).
    cbn [ast.Comments]. rewrite docsOf_app, docsOf_cons.
    cbn [ast.List]. by rewrite Hg.
Qed.

(** Three groups, the second naming "Version", registered as a string,
    after an accepted line for "Add": the records are those of the first
    and of the third group. *)
Lemma C7_signature_failure_is_local_witness :
  (commentLoop {["Add" := fnAdd; "Version" := reflect.Of tString]}
     ([ast.Build_Comment "// fn Add: adds *a* and *b* together."]
      ++ ast.Build_Comment "// fn Version: the *version* text."
      :: [ast.Build_Comment "// More."]) emptyDoc "").1 = None
  ∧ (GenerateFunctionDocs
       (parses {| ast.Comments :=
                    ast.Comments scenarioA
                    ++ {| ast.List :=
                            [ast.Build_Comment "// fn Add: adds *a* and *b* together."]
                            ++ ast.Build_Comment "// fn Version: the *version* text."
                            :: [ast.Build_Comment "// More."] |}
                    :: ast.Comments scenarioA |})
       {["Add" := fnAdd; "Version" := reflect.Of tString]} "functions.go").1
    = (Some (docsOf {["Add" := fnAdd; "Version" := reflect.Of tString]}
               (ast.Comments scenarioA)
             ++ docsOf {["Add" := fnAdd; "Version" := reflect.Of tString]}
                  (ast.Comments scenarioA)), None).
Proof.
  eapply (proj2 C7_signature_failure_is_local
            (parses _) {["Add" := fnAdd; "Version" := reflect.Of tString]}
            "functions.go" (ast.Comments scenarioA) (ast.Comments scenarioA)
            [ast.Build_Comment "// fn Add: adds *a* and *b* together."]
            [ast.Build_Comment "// More."]
            (ast.Build_Comment "// fn Version: the *version* text.")).
  - reflexivity.
  - vm_compute. eexists. reflexivity.
  - vm_compute. reflexivity.
  - vm_compute. reflexivity.
  - vm_compute. discriminate.
  - vm_compute. reflexivity.
Defined.

(** C8: [GenerateFunctionDocs] returns an error exactly when the parse of
    the source file failed (unreadable or malformed file); then it returns
    that error with a nil list of records, whatever partial file the parser
    gave, has written nothing, and [main] writes only the error line;
    when the parse succeeded it returns a list and a nil error. *)
Theorem C8_parse_error_is_fatal (ParseFile : string → parser.Result)
    (funcs : FuncMap) (sourcefile : string) :
  ((GenerateFunctionDocs ParseFile funcs sourcefile).1.2 ≠ None
   ↔ ∃ partial err, ParseFile sourcefile = parser.Failed partial err)
  ∧ (∀ partial err,
       ParseFile sourcefile = parser.Failed partial err →
       GenerateFunctionDocs ParseFile funcs sourcefile = (None, Some err, ""))
  ∧ (∀ partial err,
       ParseFile "functions.go" = parser.Failed partial err →
       main ParseFile funcs = "err: " +:+ err +:+ LF)
  ∧ (∀ source,
       ParseFile sourcefile = parser.Parsed source →
       ∃ docs out,
         GenerateFunctionDocs ParseFile funcs sourcefile = (Some docs, None, out)).
Proof.
  repeat split.
  - unfold GenerateFunctionDocs.
    destruct (ParseFile sourcefile) as [source|partial err]; [|eauto].
    destruct (groupLoop _ _ _ _); simpl. done.
  - intros (partial & err & H). unfold GenerateFunctionDocs. by rewrite H.
  - intros partial err H. unfold GenerateFunctionDocs. by rewrite H.
  - intros partial err H. unfold main, GenerateFunctionDocs. by rewrite H.
  - intros source H. unfold GenerateFunctionDocs. rewrite H.
    destruct (groupLoop _ _ _ _) as [docs out]. eauto.
Qed.

(** A source with a syntax error, parsed into a partial file. *)
Lemma C8_parse_error_is_fatal_witness :
  GenerateFunctionDocs
    (fun _ => parser.Failed (Some scenarioA) "functions.go:1:1: expected 'package'")
    {["Add" := fnAdd]} "functions.go"
  = (None, Some "functions.go:1:1: expected 'package'", "").
Proof.
  apply (proj1 (proj2 (C8_parse_error_is_fatal
           (fun _ => parser.Failed (Some scenarioA) "functions.go:1:1: expected 'package'")
           {["Add" := fnAdd]} "functions.go")) (Some scenarioA)).
  reflexivity.
Defined.

(** C9, as stated, fails: [func() []string] has exactly one return value,
    and the program writes no space and no return signature after
    [List()], whatever the type name is taken to be; and
    [func() Pair[int,string]] has exactly one return value, and the program
    writes its type name in parentheses. *)
Lemma C9_single_return_not_rendered :
  (reflect.NumOut tList = 1
   ∧ ¬ ∃ t : string,
         main (parses (sourceOf [["// fn List: lists the names."]]))
           {["List" := fnList]}
         = "List()" +:+ " " +:+ t +:+ LF +:+ "lists the names." +:+ LF +:+ LF)
  ∧ (reflect.NumOut tPair = 1
     ∧ main (parses (sourceOf [["// fn Pair: pairs them."]]))
         {["Pair" := reflect.Of tPair]}
       = "Pair() (Pair[int,string])" +:+ LF +:+ "pairs them." +:+ LF +:+ LF).
Proof.
  split; split; [reflexivity| |reflexivity|by vm_compute].
  intros [t H]. vm_compute in H. discriminate H.
Qed.

(** C9, amended: for every record completed from a function value, the
    assembler writes [Name(paramSignature)], then the return signature,
    then a line end, the docstring, a line end and an empty line; the
    return signature is nothing when the function has no return value, a
    space and the bare type name when it has exactly one return value
    whose type name is not empty and holds no comma, and a space and the
    parenthesized comma-separated list of the type names when it has two or
    more. *)
Theorem C9_rendered_block (fn : reflect.Value) (inArgNames : list string)
    (signature returns name docstring : string) (rest : list functionDoc)
    (out : string) :
  getFnSignature fn inArgNames = (signature, returns, None) →
  ∃ (fnT : reflect.rtype) (returnSignature : string),
    typeutil.ResolveValue fn = reflect.Of fnT
    ∧ printLoop ({| Name := name; DocString := docstring;
                    Signature := signature; Returns := returns |} :: rest) out
      = printLoop rest
          (out +:+ name +:+ "(" +:+ signature +:+ ")" +:+ returnSignature +:+ LF
               +:+ docstring +:+ LF +:+ LF)
    ∧ (reflect.NumOut fnT = 0 → returnSignature = "")
    ∧ (∀ outT, reflect.Outs fnT = [outT] →
               typeName outT ≠ "" → CountByte ","%char (typeName outT) = 0 →
               returnSignature = " " +:+ typeName outT)
    ∧ (2 ≤ reflect.NumOut fnT →
       returnSignature
       = " (" +:+ strings.Join (map typeName (reflect.Outs fnT)) ", " +:+ ")").
Proof.
  intros H.
  apply getFnSignature_ok_inv in H as (fnT & Hv & Hk & _ & Hret).
  exists fnT.
  exists (if negb (String.eqb returns "") then
            if 1 <? length (strings.Split returns ",")
            then " (" +:+ returns +:+ ")" else " " +:+ returns
          else returns).
  split; [done|]. split.
  - cbn [printLoop Name DocString Signature Returns].
    f_equal. by rewrite !append_assoc.
  - unfold reflect.NumOut. rewrite Split_comma_length, Hret.
    repeat split.
    + intros H0. apply length_zero_iff_nil in H0. by rewrite H0.
    + intros outT -> Hne H0. cbn [map strings.Join].
      apply String.eqb_neq in Hne. rewrite Hne, H0. done.
    + intros H2.
      destruct (reflect.Outs fnT) as [|a [|b l]]; simpl in H2; [lia..|].
      cbn [map].
      pose proof (Join_two_has_comma (typeName a) (typeName b) (map typeName l)) as Hc.
      pose proof (CountByte_empty_iff _ _ Hc) as Hne.
      apply String.eqb_neq in Hne. rewrite Hne. cbn [negb].
      destruct (CountByte _ _) as [|n]; [lia|]. done.
Qed.

(** The block of "Add", a function with one return value. *)
Lemma C9_rendered_block_witness :
  ∃ (fnT : reflect.rtype) (returnSignature : string),
    typeutil.ResolveValue fnAdd = reflect.Of fnT
    ∧ printLoop ({| Name := "Add"; DocString := "adds."; Signature := "a int, b int";
                    Returns := "int" |} :: []) ""
      = printLoop []
          ("" +:+ "Add" +:+ "(" +:+ "a int, b int" +:+ ")" +:+ returnSignature +:+ LF
              +:+ "adds." +:+ LF +:+ LF)
    ∧ (reflect.NumOut fnT = 0 → returnSignature = "")
    ∧ (∀ outT, reflect.Outs fnT = [outT] →
               typeName outT ≠ "" → CountByte ","%char (typeName outT) = 0 →
               returnSignature = " " +:+ typeName outT)
    ∧ (2 ≤ reflect.NumOut fnT →
       returnSignature
       = " (" +:+ strings.Join (map typeName (reflect.Outs fnT)) ", " +:+ ")").
Proof.
  apply (C9_rendered_block fnAdd ["a"; "b"] "a int, b int" "int" "Add" "adds." [] "").
  vm_compute. reflexivity.
Defined.

(** C10: each comment group adds at most one record, the record its
    lines end with; and when a group holds an accepted annotation line (it
    names a registered function, has a docstring, and its signature
    succeeds) after earlier lines that did not leave the group, the record
    is from there on what that line alone sets: its name, docstring,
    signature and returns replace what the earlier lines had built, the
    docstring gathered so far is dropped, and the record the group adds to
    the returned list is the one of this line and the lines after it; when
    only lines that are no annotation lines follow, it is the record of
    this last accepted line with those lines appended to its docstring. *)
Theorem C10_last_accepted_annotation_wins :
  (∀ (funcs : FuncMap) (before after : list ast.CommentGroup) (g : ast.CommentGroup),
      docsOf funcs (before ++ g :: after)
      = docsOf funcs before
        ++ match (commentLoop funcs (ast.List g) emptyDoc "").1 with
           | Some doc => [doc]
           | None => []
           end
        ++ docsOf funcs after)
  ∧ ∀ (ParseFile : string → parser.Result) (funcs : FuncMap) (sourcefile : string)
      (before after : list ast.CommentGroup)
      (pre post : list ast.Comment) (c : ast.Comment)
      (m : rxutil.MatchResult) (fn : reflect.Value) (signature outputs : string),
      ParseFile sourcefile
      = parser.Parsed {| ast.Comments :=
                           before ++ {| ast.List := pre ++ c :: post |} :: after |} →
      is_Some (commentLoop funcs pre emptyDoc "").1 →
      rxutil.Match (ast.Text c) rxFnDocString = Some m →
      funcs !! rxutil.Group m "func" = Some fn →
      rxutil.Group m "docstring" ≠ "" →
      getFnSignature fn (argNamesOf (rxutil.Group m "docstring"))
        = (signature, outputs, None) →
      (∀ out,
          commentLoop funcs (pre ++ c :: post) emptyDoc out
          = commentLoop funcs post
              {| Name := rxutil.Group m "func";
                 DocString := rxutil.Group m "docstring";
                 Signature := signature; Returns := outputs |} out)
      ∧ (GenerateFunctionDocs ParseFile funcs sourcefile).1
        = (Some (docsOf funcs before
                 ++ match (commentLoop funcs post
                             {| Name := rxutil.Group m "func";
                                DocString := rxutil.Group m "docstring";
                                Signature := signature; Returns := outputs |} "").1 with
                    | Some doc => [doc]
                    | None => []
                    end
                 ++ docsOf funcs after), None)
      ∧ (Forall (fun c' => rxutil.Match (ast.Text c') rxFnDocString = None) post →
         (GenerateFunctionDocs ParseFile funcs sourcefile).1
         = (Some (docsOf funcs before
                  ++ [{| Name := rxutil.Group m "func";
                         DocString := appendLines (rxutil.Group m "docstring") post;
                         Signature := signature; Returns := outputs |}]
                  ++ docsOf funcs after), None)).
Proof.
  assert (∀ (funcs : FuncMap) before after g,
            docsOf funcs (before ++ g :: after)
            = docsOf funcs before
              ++ match (commentLoop funcs (ast.List g) emptyDoc "").1 with
                 | Some doc => [doc]
                 | None => []
                 end
              ++ docsOf funcs after) as Hgroup.
  { intros funcs before after g. rewrite docsOf_app, docsOf_cons.
    by destruct (commentLoop funcs (ast.List g) emptyDoc "").1. }
  split; [exact Hgroup|].
  intros ParseFile funcs sourcefile before after pre post c m fn signature outputs
    Hparse [d Hpre] Hm Hf Hd Hs.
  assert (∀ out,
            commentLoop funcs (pre ++ c :: post) emptyDoc out
            = commentLoop funcs post
                {| Name := rxutil.Group m "func";
                   DocString := rxutil.Group m "docstring";
                   Signature := signature; Returns := outputs |} out) as E.
  { intros out. rewrite commentLoop_app.
    pose proof (commentLoop_docs_out funcs pre emptyDoc out "") as Ho.
    destruct (commentLoop funcs pre emptyDoc out) as [[d'|] o] eqn:Ep.
    - apply commentLoop_out in Ep as ->.
      by apply commentLoop_accept with (fn := fn).
    - rewrite Hpre in Ho. done. }
  assert ((GenerateFunctionDocs ParseFile funcs sourcefile).1
          = (Some (docsOf funcs before
                   ++ match (commentLoop funcs post
                               {| Name := rxutil.Group m "func";
                                  DocString := rxutil.Group m "docstring";
                                  Signature := signature; Returns := outputs |} "").1 with
                      | Some doc => [doc]
                      | None => []
                      end
                   ++ docsOf funcs after), None)) as Hdocs.
  { rewrite (GenerateFunctionDocs_parsed ParseFile funcs sourcefile _ Hparse).
    cbn [ast.Comments]. rewrite Hgroup. cbn [ast.List]. by rewrite E. }
  split; [exact E|]. split; [exact Hdocs|].
  intros Hpost. rewrite Hdocs.
  rewrite commentLoop_continuations; [done| |done].
  simpl. by apply (annotation_name_not_empty (ast.Text c)).
Qed.

(** A file of two groups: scenario A, then a group with an accepted line
    for "Add", a continuation line, an accepted line for "Echo" and a
    continuation line.  The second group adds the record of "Echo". *)
Lemma C10_last_accepted_annotation_wins_witness :
  (GenerateFunctionDocs
     (parses {| ast.Comments :=
                  ast.Comments scenarioA
                  ++ {| ast.List :=
                          [ast.Build_Comment "// fn Add: adds *a* and *b*.";
                           ast.Build_Comment "// Both are numbers."]
                          ++ ast.Build_Comment "// fn Echo: returns *msg* unchanged."
                          :: [ast.Build_Comment "// Useful for testing."] |}
                  :: [] |})
     {["Add" := fnAdd; "Echo" := fnEcho]} "functions.go").1
  = (Some ([{| Name := "Add"; DocString := "adds *a* and *b* together.";
               Signature := "a int, b int"; Returns := "int" |}]
           ++ [{| Name := "Echo";
                  DocString := "returns *msg* unchanged. Useful for testing.";
                  Signature := "msg string"; Returns := "string" |}]
           ++ []), None).
Proof.
  refine (proj2 (proj2 (proj2 C10_last_accepted_annotation_wins
                   (parses _) {["Add" := fnAdd; "Echo" := fnEcho]} "functions.go"
                   (ast.Comments scenarioA) []
                   [ast.Build_Comment "// fn Add: adds *a* and *b*.";
                    ast.Build_Comment "// Both are numbers."]
                   [ast.Build_Comment "// Useful for testing."]
                   (ast.Build_Comment "// fn Echo: returns *msg* unchanged.")
                   (matchOf "// fn Echo: returns *msg* unchanged.")
                   fnEcho "msg string" "string" _ _ _ _ _ _)) _).
  - reflexivity.
  - vm_compute. eexists. reflexivity.
  - vm_compute. reflexivity.
  - vm_compute. reflexivity.
  - vm_compute. discriminate.
  - vm_compute. reflexivity.
  - repeat constructor.
Defined.

(* ===================================================================== *)
(** ** Further properties of cli/funcdoc.go *)
(* ===================================================================== *)

Lemma append_nil_r (a : string) : a +:+ "" = a.
Proof. induction a as [|x a IH]; [done|]. by rewrite append_cons, IH. Qed.

(** The only error of [getFnSignature]. *)
Lemma getFnSignature_error (fn : reflect.Value) (inArgNames : list string) s o err :
  getFnSignature fn inArgNames = (s, o, Some err) → err = errNotFunc.
Proof.
  unfold getFnSignature.
  destruct (typeutil.IsKind _ _); [|by intros [= <-]].
  destruct (reflect.TypeOf _); [done|by intros [= <-]].
Qed.

(** X1: a group whose first line is no annotation line adds no record,
    whatever its later lines are, and the groups before and after it add
    theirs. *)
Theorem X1_leading_plain_line_drops_group (ParseFile : string → parser.Result)
    (funcs : FuncMap) (sourcefile : string) (before after : list ast.CommentGroup)
    (c : ast.Comment) (rest : list ast.Comment) :
  ParseFile sourcefile
  = parser.Parsed {| ast.Comments := before ++ {| ast.List := c :: rest |} :: after |} →
  rxutil.Match (ast.Text c) rxFnDocString = None →
  (GenerateFunctionDocs ParseFile funcs sourcefile).1
  = (Some (docsOf funcs before ++ docsOf funcs after), None).
Proof.
  intros Hparse Hc.
  rewrite (GenerateFunctionDocs_parsed ParseFile funcs sourcefile _ Hparse).
  cbn [ast.Comments]. rewrite docsOf_app, docsOf_cons. cbn [ast.List].
  simpl. by rewrite Hc.
Qed.

(** A heading line in front of a valid annotation line. *)
Lemma X1_leading_plain_line_drops_group_witness :
  (GenerateFunctionDocs
     (parses {| ast.Comments :=
                  [] ++ {| ast.List := ast.Build_Comment "// Arithmetic."
                             :: [ast.Build_Comment "// fn Add: adds *a* and *b* together."] |}
                  :: ast.Comments scenarioA |})
     {["Add" := fnAdd]} "functions.go").1
  = (Some (docsOf {["Add" := fnAdd]} [] ++ docsOf {["Add" := fnAdd]} (ast.Comments scenarioA)),
     None).
Proof.
  apply (X1_leading_plain_line_drops_group (parses _) {["Add" := fnAdd]}
           "functions.go" [] (ast.Comments scenarioA)
           (ast.Build_Comment "// Arithmetic.")
           [ast.Build_Comment "// fn Add: adds *a* and *b* together."]).
  - reflexivity.
  - vm_compute. reflexivity.
Defined.

Lemma commentLoop_record (funcs : FuncMap) (cs : list ast.Comment) :
  ∀ doc out d o,
    commentLoop funcs cs doc out = (Some d, o) →
    (doc = emptyDoc
     ∨ (Name doc ≠ "" ∧ DocString doc ≠ ""
        ∧ ∃ fn names, funcs !! Name doc = Some fn
                      ∧ getFnSignature fn names = (Signature doc, Returns doc, None))) →
    d = emptyDoc
    ∨ (Name d ≠ "" ∧ DocString d ≠ ""
       ∧ ∃ fn names, funcs !! Name d = Some fn
                     ∧ getFnSignature fn names = (Signature d, Returns d, None)).
Proof.
  induction cs as [|c cs IH]; intros doc out d o H Hdoc; simpl in H.
  - by simplify_eq.
  - line_cases funcs doc c; simpl in H; try discriminate; eauto.
    + eapply IH; [exact H|]. right. simpl.
      split; [by eapply annotation_name_not_empty|].
      split; [by apply String.eqb_neq|]. eauto.
    + eapply IH; [exact H|]. right. simpl.
      destruct Hdoc as [->|(? & ? & ?)]; [done|].
      split; [done|]. split; [by apply append_not_empty|done].
Qed.

(** X2: every record that [GenerateFunctionDocs] returns is the empty
    record, or it has a name and a docstring that are not empty, the name
    is that of a registered function, and its signature and returns are
    those [getFnSignature] gives for that function. *)
Theorem X2_records_come_from_registry (ParseFile : string → parser.Result)
    (funcs : FuncMap) (sourcefile : string) (docs : list functionDoc) :
  (GenerateFunctionDocs ParseFile funcs sourcefile).1.1 = Some docs →
  Forall (fun d =>
            d = emptyDoc
            ∨ (Name d ≠ "" ∧ DocString d ≠ ""
               ∧ ∃ fn names, funcs !! Name d = Some fn
                             ∧ getFnSignature fn names
                               = (Signature d, Returns d, None))) docs.
Proof.
  unfold GenerateFunctionDocs.
  destruct (ParseFile sourcefile) as [source|partial err]; [|done].
  pose proof (groupLoop_docs funcs (ast.Comments source) [] "") as E.
  destruct (groupLoop funcs (ast.Comments source) [] "") as [docs' out].
  simpl in *. intros [= <-]. subst docs'.
  induction (ast.Comments source) as [|g gs IH]; [constructor|].
  rewrite docsOf_cons.
  destruct (commentLoop funcs (ast.List g) emptyDoc "") as [[d|] o] eqn:Eg;
    simpl; [|done].
  constructor; [|done].
  eapply commentLoop_record; [exact Eg|by left].
Qed.

(** Scenario C: the record of "Echo". *)
Lemma X2_records_come_from_registry_witness :
  Forall (fun d =>
            d = emptyDoc
            ∨ (Name d ≠ "" ∧ DocString d ≠ ""
               ∧ ∃ fn names, ({["Echo" := fnEcho]} : FuncMap) !! Name d = Some fn
                             ∧ getFnSignature fn names
                               = (Signature d, Returns d, None)))
    [{| Name := "Echo";
        DocString := "returns *msg* unchanged. Useful for testing.";
        Signature := "msg string"; Returns := "string" |}].
Proof.
  apply (X2_records_come_from_registry (parses scenarioC) {["Echo" := fnEcho]}
           "functions.go").
  vm_compute. reflexivity.
Defined.

Lemma commentLoop_output (funcs : FuncMap) (cs : list ast.Comment) :
  ∀ doc out r o,
    commentLoop funcs cs doc out = (r, o) →
    o = out ∨ (r = None ∧ o = out +:+ signatureFailed).
Proof.
  induction cs as [|c cs IH]; intros doc out r o H; simpl in H.
  - left. by simplify_eq.
  - line_cases funcs doc c; simpl in H; eauto.
    + right.
      match goal with
      | Hs : getFnSignature _ _ = _ |- _ => apply getFnSignature_error in Hs as ->
      end.
      by simplify_eq.
    + left. by simplify_eq.
Qed.

Lemma append_same_l (a x : string) : a +:+ x = a → x = "".
Proof.
  induction a as [|b a IH]; [done|].
  rewrite append_cons. intros [= H]. by apply IH.
Qed.

Lemma getFnSignature_error_kind (fn : reflect.Value) (inArgNames : list string) s o err :
  getFnSignature fn inArgNames = (s, o, Some err) →
  typeutil.IsKind (typeutil.ResolveValue fn) reflect.Func = false.
Proof.
  intros H.
  destruct (typeutil.IsKind (typeutil.ResolveValue fn) reflect.Func) eqn:Hk; [|done].
  apply IsKind_Func_iff in Hk as (fnT & Hv & Hf).
  rewrite ResolveValue_idemp in Hv.
  by rewrite (getFnSignature_func fn fnT inArgNames Hv Hf) in H.
Qed.

(** A scan that writes has met, after lines that did not end the group, an
    annotation line for a registered value that is no function. *)
Lemma commentLoop_wrote (funcs : FuncMap) (cs : list ast.Comment) :
  ∀ doc out r o,
    commentLoop funcs cs doc out = (r, o) →
    o ≠ out →
    ∃ pre c post m fn,
      cs = pre ++ c :: post
      ∧ is_Some (commentLoop funcs pre doc "").1
      ∧ rxutil.Match (ast.Text c) rxFnDocString = Some m
      ∧ funcs !! rxutil.Group m "func" = Some fn
      ∧ rxutil.Group m "docstring" ≠ ""
      ∧ typeutil.IsKind (typeutil.ResolveValue fn) reflect.Func = false.
Proof.
  induction cs as [|c cs IH]; intros doc out r o H Ho.
  - simpl in H. by simplify_eq.
  - assert (∀ doc',
              (∀ rest out', commentLoop funcs (c :: rest) doc out'
                            = commentLoop funcs rest doc' out') →
              ∃ pre c0 post m fn,
                c :: cs = pre ++ c0 :: post
                ∧ is_Some (commentLoop funcs pre doc "").1
                ∧ rxutil.Match (ast.Text c0) rxFnDocString = Some m
                ∧ funcs !! rxutil.Group m "func" = Some fn
                ∧ rxutil.Group m "docstring" ≠ ""
                ∧ typeutil.IsKind (typeutil.ResolveValue fn) reflect.Func = false)
      as Hstep.
    { intros doc' E. rewrite E in H.
      destruct (IH doc' out r o H Ho) as (pre & c0 & post & m & fn & -> & Hp & Hrest).
      exists (c :: pre), c0, post, m, fn. split; [done|].
      split; [by rewrite E|done]. }
    simpl in H. line_cases funcs doc c; simpl in H.
    + apply (Hstep doc). intros rest out'. apply commentLoop_ignored with (m := m); [done|].
      right. by apply String.eqb_eq.
    + exists [], c, cs, m, fn. split; [done|]. split; [by eexists|].
      split; [done|]. split; [done|]. split; [by apply String.eqb_neq|].
      by eapply getFnSignature_error_kind.
    + match goal with
      | Hs : getFnSignature _ _ = (?sg, ?os, None) |- _ =>
          apply (Hstep {| Name := rxutil.Group m "func";
                          DocString := rxutil.Group m "docstring";
                          Signature := sg; Returns := os |});
          intros rest out';
          apply commentLoop_accept with (fn := fn); [done|done| |done]
      end.
      by apply String.eqb_neq.
    + apply (Hstep doc). intros rest out'. apply commentLoop_ignored with (m := m); [done|].
      by left.
    + by simplify_eq.
    + eapply Hstep. intros rest out'. simpl.
      match goal with
      | Hm : rxutil.Match _ _ = None, Hn : String.eqb _ _ = false |- _ =>
          by rewrite Hm, Hn
      end.
Qed.

(** A group left on a failed signature adds no record and writes the line
    once. *)
Lemma commentLoop_failsSignature (funcs : FuncMap) (g : ast.CommentGroup) (out : string) :
  failsSignature funcs g →
  commentLoop funcs (ast.List g) emptyDoc out = (None, out +:+ signatureFailed).
Proof.
  intros (pre & c & post & m & fn & -> & [d Hp] & Hm & Hf & Hd & Hk).
  rewrite commentLoop_app.
  pose proof (commentLoop_docs_out funcs pre emptyDoc out "") as Ho.
  rewrite Hp in Ho.
  destruct (commentLoop funcs pre emptyDoc out) as [[d'|] o] eqn:Ep; [|done].
  apply commentLoop_out in Ep as ->.
  apply commentLoop_signature_failed with (m := m) (fn := fn) (s := "") (o := "");
    [done|done|done|by apply getFnSignature_not_func].
Qed.

Lemma groupLoop_failed (funcs : FuncMap) (gs : list ast.CommentGroup) :
  ∀ docs out docs' out',
    groupLoop funcs gs docs out = (docs', out') →
    ∃ failed : list bool,
      Forall2 (fun g b => b = true ↔ failsSignature funcs g) gs failed
      ∧ out' = out +:+ repeatText (countTrue failed) signatureFailed
      ∧ length docs' + countTrue failed ≤ length docs + length gs.
Proof.
  induction gs as [|g gs IH]; intros docs out docs' out' H; simpl in H.
  - exists []. simplify_eq. split; [constructor|]. by rewrite append_nil_r.
  - destruct (commentLoop funcs (ast.List g) emptyDoc out) as [r o] eqn:Eg.
    destruct (decide (o = out)) as [->|Hne].
    + assert (¬ failsSignature funcs g) as Hnot.
      { intros Hf. rewrite (commentLoop_failsSignature funcs g out Hf) in Eg.
        injection Eg as _ Eo. apply append_same_l in Eo. done. }
      destruct r as [d|];
        apply IH in H as (failed & HF & -> & Hn); exists (false :: failed);
        (split; [constructor; [split; [done|by intros ?]|done]|]);
        (split; [done|]); simpl in *; rewrite ?length_app in Hn; simpl in *; lia.
    + pose proof (commentLoop_wrote funcs (ast.List g) emptyDoc out r o Eg Hne) as Hf.
      apply commentLoop_output in Eg as [->|[-> ->]]; [done|].
      apply IH in H as (failed & HF & -> & Hn). exists (true :: failed).
      split; [constructor; [by split|done]|].
      rewrite append_assoc. simpl. split; [done|lia].
Qed.

(** X3: what [GenerateFunctionDocs] writes is the line
    [signature failed: must provide a function to get a signature], once
    for each group left on a failed signature, and nothing else: with
    [failed] marking, group by group, the groups in which an annotation
    line for a registered value that is no function is reached, the output
    is the line repeated as often as [failed] has marks; these groups and
    the returned records together are no more than the groups of the
    file. *)
Theorem X3_output_is_failure_lines (ParseFile : string → parser.Result)
    (funcs : FuncMap) (sourcefile : string) (source : ast.File)
    (docs : list functionDoc) (out : string) :
  ParseFile sourcefile = parser.Parsed source →
  GenerateFunctionDocs ParseFile funcs sourcefile = (Some docs, None, out) →
  ∃ failed : list bool,
    Forall2 (fun g b => b = true ↔ failsSignature funcs g)
      (ast.Comments source) failed
    ∧ out = repeatText (countTrue failed) signatureFailed
    ∧ length docs + countTrue failed ≤ length (ast.Comments source).
Proof.
  intros Hparse. unfold GenerateFunctionDocs. rewrite Hparse.
  destruct (groupLoop funcs (ast.Comments source) [] "") as [docs' out'] eqn:E.
  intros [= <- <-]. by apply groupLoop_failed in E.
Qed.

(** Two groups: the first names a value that is no function, the second is
    scenario A. *)
Lemma X3_output_is_failure_lines_witness :
  ∃ failed : list bool,
    Forall2 (fun g b => b = true
                        ↔ failsSignature {["Add" := fnAdd; "Version" := reflect.Of tString]} g)
      (ast.Comments (sourceOf [["// fn Version: the *version* text."];
                               ["// fn Add: adds *a* and *b* together."]])) failed
    ∧ signatureFailed = repeatText (countTrue failed) signatureFailed
    ∧ length [{| Name := "Add"; DocString := "adds *a* and *b* together.";
                 Signature := "a int, b int"; Returns := "int" |}]
      + countTrue failed
      ≤ length (ast.Comments
                  (sourceOf [["// fn Version: the *version* text."];
                             ["// fn Add: adds *a* and *b* together."]])).
Proof.
  apply (X3_output_is_failure_lines
           (parses (sourceOf [["// fn Version: the *version* text."];
                              ["// fn Add: adds *a* and *b* together."]]))
           {["Add" := fnAdd; "Version" := reflect.Of tString]} "functions.go"
           (sourceOf [["// fn Version: the *version* text."];
                      ["// fn Add: adds *a* and *b* together."]])).
  - reflexivity.
  - vm_compute. reflexivity.
Defined.

Lemma commentLoop_silent (funcs : FuncMap) (cs : list ast.Comment) :
  (∀ name fn, funcs !! name = Some fn →
              typeutil.IsKind (typeutil.ResolveValue fn) reflect.Func = true) →
  ∀ doc out r o, commentLoop funcs cs doc out = (r, o) → o = out.
Proof.
  intros Hfuncs.
  induction cs as [|c cs IH]; intros doc out r o H; simpl in H.
  - by simplify_eq.
  - line_cases funcs doc c; simpl in H; eauto; [|by simplify_eq].
    match goal with
    | Hf : funcs !! _ = Some _, Hs : getFnSignature _ _ = _ |- _ =>
        apply Hfuncs in Hf;
        apply IsKind_Func_iff in Hf as (fnT & Hv & Hk);
        rewrite ResolveValue_idemp in Hv;
        by rewrite (getFnSignature_func _ fnT _ Hv Hk) in Hs
    end.
Qed.

(** X4: when every value of the registry is a function (possibly behind
    pointers), [GenerateFunctionDocs] writes nothing, whatever the source
    file is. *)
Theorem X4_functions_only_registry_is_silent (ParseFile : string → parser.Result)
    (funcs : FuncMap) (sourcefile : string) :
  (∀ name fn, funcs !! name = Some fn →
              typeutil.IsKind (typeutil.ResolveValue fn) reflect.Func = true) →
  (GenerateFunctionDocs ParseFile funcs sourcefile).2 = "".
Proof.
  intros Hfuncs. unfold GenerateFunctionDocs.
  destruct (ParseFile sourcefile) as [source|partial err]; [|done].
  destruct (groupLoop funcs (ast.Comments source) [] "") as [docs out] eqn:E.
  simpl. revert E. generalize (@nil functionDoc) as docs0.
  induction (ast.Comments source) as [|g gs IH]; intros docs0 E; simpl in E.
  - by simplify_eq.
  - destruct (commentLoop funcs (ast.List g) emptyDoc "") as [[d|] o] eqn:Eg;
      apply (commentLoop_silent funcs _ Hfuncs) in Eg as ->; eauto.
Qed.

(** Scenario B with the registry {"Add"}. *)
Lemma X4_functions_only_registry_is_silent_witness :
  (GenerateFunctionDocs (parses scenarioB) {["Add" := fnAdd]} "functions.go").2 = "".
Proof.
  apply (X4_functions_only_registry_is_silent (parses scenarioB) {["Add" := fnAdd]}).
  intros name fn H.
  apply lookup_singleton_Some in H as [_ <-]. reflexivity.
Defined.

(** X5: argument names beyond the number of parameters are ignored: with
    at least as many names as the function has parameters, further names
    change nothing in what [getFnSignature] returns. *)
Theorem X5_surplus_argument_names_ignored (fn : reflect.Value) (fnT : reflect.rtype)
    (inArgNames extra : list string) :
  typeutil.ResolveValue fn = reflect.Of fnT →
  reflect.NumIn fnT ≤ length inArgNames →
  getFnSignature fn (inArgNames ++ extra) = getFnSignature fn inArgNames.
Proof.
  intros Hv Hlen.
  destruct (typeutil.IsKind (typeutil.ResolveValue fn) reflect.Func) eqn:Hk.
  - apply IsKind_Func_iff in Hk as (fnT' & Hv' & Hk).
    rewrite ResolveValue_idemp, Hv in Hv'. simplify_eq.
    rewrite !(getFnSignature_func fn fnT' _ Hv Hk). do 3 f_equal.
    apply imap_ext. intros i t Hi. unfold inEntry.
    rewrite lookup_app_l; [done|].
    apply lookup_lt_Some in Hi. unfold reflect.NumIn in Hlen. lia.
  - by rewrite !getFnSignature_not_func.
Qed.

(** "Add" with a third name. *)
Lemma X5_surplus_argument_names_ignored_witness :
  getFnSignature fnAdd (["a"; "b"] ++ ["c"]) = getFnSignature fnAdd ["a"; "b"].
Proof.
  apply (X5_surplus_argument_names_ignored fnAdd
           (reflect.FuncOf [tInt; tInt] [tInt] false) ["a"; "b"] ["c"]).
  - reflexivity.
  - unfold reflect.NumIn. simpl. lia.
Defined.

(** X6: the rendered return values and the error of [getFnSignature] do
    not depend on the argument names. *)
Theorem X6_returns_independent_of_argument_names (fn : reflect.Value)
    (inArgNames inArgNames' : list string) :
  (getFnSignature fn inArgNames).1.2 = (getFnSignature fn inArgNames').1.2
  ∧ (getFnSignature fn inArgNames).2 = (getFnSignature fn inArgNames').2.
Proof.
  destruct (typeutil.IsKind (typeutil.ResolveValue fn) reflect.Func) eqn:Hk.
  - apply IsKind_Func_iff in Hk as (fnT & Hv & Hk).
    rewrite ResolveValue_idemp in Hv.
    by rewrite !(getFnSignature_func fn fnT _ Hv Hk).
  - by rewrite !getFnSignature_not_func.
Qed.

Lemma imap_named_zip (f : reflect.rtype → string) (ins : list reflect.rtype) :
  ∀ names : list string,
    length names = length ins →
    imap (fun i t => match names !! i with
                     | Some argName => argName +:+ " " +:+ f t
                     | None => f t
                     end) ins
    = zip_with (fun argName t => argName +:+ " " +:+ f t) names ins.
Proof.
  induction ins as [|t ins IH]; intros [|a names] Hlen; simplify_eq/=; [done|].
  f_equal. by apply IH.
Qed.

(** X7: for a function that is not variadic and as many argument names as
    it has parameters, the rendered parameters are the entries
    [<name> <type name>], one for each parameter in order, joined by a
    comma and a space. *)
Theorem X7_named_parameters (fn : reflect.Value) (fnT : reflect.rtype)
    (inArgNames : list string) :
  typeutil.ResolveValue fn = reflect.Of fnT →
  reflect.TypeKind fnT = reflect.Func →
  reflect.IsVariadic fnT = false →
  length inArgNames = reflect.NumIn fnT →
  (getFnSignature fn inArgNames).1.1
  = strings.Join
      (zip_with (fun argName t => argName +:+ " " +:+ typeName t)
                inArgNames (reflect.Ins fnT)) ", ".
Proof.
  intros Hv Hk Hvar Hlen.
  rewrite (getFnSignature_func fn fnT inArgNames Hv Hk). simpl. f_equal.
  rewrite <- (imap_named_zip typeName (reflect.Ins fnT) inArgNames Hlen).
  apply imap_ext. intros i t _. unfold inEntry. by rewrite Hvar.
Qed.

(** "Add" with the names [a] and [b]. *)
Lemma X7_named_parameters_witness :
  (getFnSignature fnAdd ["a"; "b"]).1.1
  = strings.Join
      (zip_with (fun argName t => argName +:+ " " +:+ typeName t)
                ["a"; "b"] [tInt; tInt]) ", ".
Proof.
  apply (X7_named_parameters fnAdd (reflect.FuncOf [tInt; tInt] [tInt] false)
           ["a"; "b"]); reflexivity.
Defined.

Lemma printLoop_out (docs : list functionDoc) :
  ∀ out, printLoop docs out = out +:+ printLoop docs "".
Proof.
  induction docs as [|doc docs IH]; intros out.
  - simpl. by rewrite append_nil_r.
  - cbn [printLoop]. rewrite IH. symmetry. rewrite IH.
    by rewrite !append_assoc.
Qed.

(** X8: the loop of [main] over the records only appends: what it writes
    for a list of records does not depend on what was written before, and
    the text for two lists one after the other is the text of the first
    followed by the text of the second, so the blocks come in the order of
    the records. *)
Theorem X8_blocks_are_appended (docs1 docs2 : list functionDoc) (out : string) :
  printLoop (docs1 ++ docs2) out
  = out +:+ printLoop docs1 "" +:+ printLoop docs2 "".
Proof.
  revert out. induction docs1 as [|doc docs1 IH]; intros out.
  - simpl. apply printLoop_out.
  - cbn [app printLoop]. rewrite IH.
    rewrite (printLoop_out docs1 (_ +:+ _)).
    by rewrite !append_assoc.
Qed.

(** X9: an annotation line that names no registered function, or whose
    docstring is empty, can be taken out of its group without changing the
    result of the group, wherever it stands. *)
Theorem X9_ignored_line_can_be_removed (funcs : FuncMap)
    (pre post : list ast.Comment) (c : ast.Comment) (m : rxutil.MatchResult)
    (doc : functionDoc) (out : string) :
  rxutil.Match (ast.Text c) rxFnDocString = Some m →
  funcs !! rxutil.Group m "func" = None ∨ rxutil.Group m "docstring" = "" →
  commentLoop funcs (pre ++ c :: post) doc out
  = commentLoop funcs (pre ++ post) doc out.
Proof.
  intros Hm Hc. rewrite !commentLoop_app.
  destruct (commentLoop funcs pre doc out) as [[d|] o]; [|done].
  by apply commentLoop_ignored with (m := m).
Qed.

(** A line for the unknown "Multiply" between the two lines of scenario C. *)
Lemma X9_ignored_line_can_be_removed_witness :
  commentLoop {["Echo" := fnEcho]}
    ([ast.Build_Comment "// fn Echo: returns *msg* unchanged."]
     ++ ast.Build_Comment "// fn Multiply: multiplies *a* and *b*."
     :: [ast.Build_Comment "// Useful for testing."]) emptyDoc ""
  = commentLoop {["Echo" := fnEcho]}
      ([ast.Build_Comment "// fn Echo: returns *msg* unchanged."]
       ++ [ast.Build_Comment "// Useful for testing."]) emptyDoc "".
Proof.
  apply (X9_ignored_line_can_be_removed {["Echo" := fnEcho]}
           [ast.Build_Comment "// fn Echo: returns *msg* unchanged."]
           [ast.Build_Comment "// Useful for testing."]
           (ast.Build_Comment "// fn Multiply: multiplies *a* and *b*.")
           (matchOf "// fn Multiply: multiplies *a* and *b*.") emptyDoc "").
  - vm_compute. reflexivity.
  - left. vm_compute. reflexivity.
Defined.

Lemma commentLoop_shift (funcs : FuncMap) (cs : list ast.Comment) :
  ∀ doc out,
    commentLoop funcs cs doc out
    = ((commentLoop funcs cs doc "").1, out +:+ (commentLoop funcs cs doc "").2).
Proof.
  induction cs as [|c cs IH]; intros doc out; simpl.
  - by rewrite append_nil_r.
  - line_cases funcs doc c; simpl; eauto. by rewrite append_nil_r.
Qed.

Lemma groupLoop_shift (funcs : FuncMap) (gs : list ast.CommentGroup) :
  ∀ docs out,
    groupLoop funcs gs docs out
    = (docs ++ (groupLoop funcs gs [] "").1,
       out +:+ (groupLoop funcs gs [] "").2).
Proof.
  induction gs as [|g gs IH]; intros docs out; simpl.
  - by rewrite app_nil_r, append_nil_r.
  - rewrite (commentLoop_shift funcs (ast.List g) emptyDoc out).
    destruct (commentLoop funcs (ast.List g) emptyDoc "") as [[d|] o]; simpl.
    + rewrite (IH (docs ++ [d]) (out +:+ o)), (IH [d] o).
      simpl. by rewrite <- app_assoc, append_assoc.
    + rewrite (IH docs (out +:+ o)), (IH [] o).
      simpl. by rewrite append_assoc.
Qed.

(** X10: the groups of a file are handled independently of one another:
    the records and the text written for a file are those of its first
    groups followed by those of its remaining groups, each taken as a file
    of its own. *)
Theorem X10_groups_are_independent (funcs : FuncMap) (sourcefile : string)
    (gs1 gs2 : list ast.CommentGroup) :
  ∃ docs1 out1 docs2 out2,
    GenerateFunctionDocs (parses {| ast.Comments := gs1 |}) funcs sourcefile
    = (Some docs1, None, out1)
    ∧ GenerateFunctionDocs (parses {| ast.Comments := gs2 |}) funcs sourcefile
      = (Some docs2, None, out2)
    ∧ GenerateFunctionDocs (parses {| ast.Comments := gs1 ++ gs2 |}) funcs sourcefile
      = (Some (docs1 ++ docs2), None, out1 +:+ out2).
Proof.
  unfold GenerateFunctionDocs, parses. cbn [ast.Comments].
  assert (groupLoop funcs (gs1 ++ gs2) [] ""
          = ((groupLoop funcs gs1 [] "").1 ++ (groupLoop funcs gs2 [] "").1,
             (groupLoop funcs gs1 [] "").2 +:+ (groupLoop funcs gs2 [] "").2)) as E.
  { induction gs1 as [|g gs1 IH]; simpl.
    - by destruct (groupLoop funcs gs2 [] "").
    - destruct (commentLoop funcs (ast.List g) emptyDoc "") as [[d|] o].
      + rewrite (groupLoop_shift funcs (gs1 ++ gs2) [d] o), IH.
        rewrite (groupLoop_shift funcs gs1 [d] o). simpl.
        by rewrite append_assoc.
      + rewrite (groupLoop_shift funcs (gs1 ++ gs2) [] o), IH.
        rewrite (groupLoop_shift funcs gs1 [] o). simpl.
        by rewrite append_assoc. }
  rewrite E.
  destruct (groupLoop funcs gs1 [] "") as [d1 o1].
  destruct (groupLoop funcs gs2 [] "") as [d2 o2]. simpl.
  by exists d1, o1, d2, o2.
Qed.

(* ===================================================================== *)
(** ** The matcher matches what the pattern says *)
(* ===================================================================== *)

Lemma setBy_mono (gs gs' : list (nat * regexp.Regexp)) i caps :
  gs ⊆ gs' → setBy gs i caps → setBy gs' i caps.
Proof. intros Hsub (r' & q & Hin & Hq & Hl). exists r', q. auto. Qed.

Lemma setBy_lookup (gs : list (nat * regexp.Regexp)) i (caps caps' : list string) :
  caps' !! i = caps !! i → setBy gs i caps → setBy gs i caps'.
Proof. intros E (r' & q & Hin & Hq & Hl). exists r', q. by rewrite E. Qed.

(** Captures after two matches in a row. *)
Lemma setBy_seq (gs1 gs2 : list (nat * regexp.Regexp)) (caps caps1 caps2 : list string) :
  (∀ i, caps1 !! i = caps !! i ∨ setBy gs1 i caps1) →
  (∀ i, caps2 !! i = caps1 !! i ∨ setBy gs2 i caps2) →
  ∀ i, caps2 !! i = caps !! i ∨ setBy (gs1 ++ gs2) i caps2.
Proof.
  intros H1 H2 i. destruct (H2 i) as [E2|S2].
  - destruct (H1 i) as [E1|S1]; [left; congruence|].
    right. eapply setBy_mono; [|by eapply setBy_lookup].
    by apply sublist_subseteq, sublist_inserts_r.
  - right. eapply setBy_mono; [|exact S2].
    by apply sublist_subseteq, sublist_inserts_l.
Qed.

Lemma setBy_dup (gs : list (nat * regexp.Regexp)) i caps :
  setBy (gs ++ gs) i caps → setBy gs i caps.
Proof.
  intros (r' & q & Hin & Hq & Hl). exists r', q.
  apply elem_of_app in Hin. by destruct Hin.
Qed.

Lemma rxMatch_matched {A : Type} (r : regexp.Regexp) :
  ∀ s caps (k : string → list string → option A) res,
    regexp.rxMatch r s caps k = Some res → matched r k s caps res.
Proof.
  induction r as [l|cl|r1 IH1 r2 IH2|min r IH|i name r IH];
    intros s caps k res H; simpl in H.
  - destruct (strings.HasPrefix s l) eqn:Hp; [|done].
    exists l, (strings.drop (String.length l) s), caps.
    split; [by apply HasPrefix_drop|]. simpl.
    repeat split; [by left|by intros i ?%elem_of_nil|done].
  - destruct s as [|c s]; [done|]. destruct (cl c) eqn:Hc; [|done].
    exists (String c ""), s, caps. simpl.
    repeat split; [by exists c|by left|by intros i ?%elem_of_nil|done].
  - apply IH1 in H as (p1 & s1 & caps1 & -> & Hl1 & Hc1 & Hd1 & Hm1 & H).
    apply IH2 in H as (p2 & s2 & caps2 & -> & Hl2 & Hc2 & Hd2 & Hm2 & H).
    exists (p1 +:+ p2), s2, caps2. rewrite append_assoc. simpl.
    repeat split; [by exists p1, p2|congruence|by eapply setBy_seq| |done].
    intros i Hi Hlt. apply elem_of_app in Hi as [Hi|Hi].
    + specialize (Hm1 i Hi Hlt). destruct (Hd2 i) as [E|S2].
      * eapply setBy_mono; [|by eapply setBy_lookup].
        by apply sublist_subseteq, sublist_inserts_r.
      * eapply setBy_mono; [|exact S2].
        by apply sublist_subseteq, sublist_inserts_l.
    + eapply setBy_mono; [|apply Hm2; [done|congruence]].
      by apply sublist_subseteq, sublist_inserts_l.
  - assert (∀ fuel n s caps,
      (fix loop (fuel n : nat) (s : string) (caps : list string) {struct fuel}
         : option A :=
         match fuel with
         | 0 => if min <=? n then k s caps else None
         | S fuel' =>
             match regexp.rxMatch r s caps
                     (fun s' caps' =>
                        if String.length s' <? String.length s
                        then loop fuel' (S n) s' caps' else None) with
             | Some a => Some a
             | None => if min <=? n then k s caps else None
             end
         end) fuel n s caps = Some res →
      ∃ ps s' caps',
        s = flatten ps +:+ s'
        ∧ Forall (lang r) ps ∧ min - n ≤ length ps
        ∧ length caps' = length caps
        ∧ (∀ i, caps' !! i = caps !! i ∨ setBy (groups r) i caps')
        ∧ (1 ≤ min - n → ∀ i, i ∈ mustIdx r → i < length caps →
                              setBy (groups r) i caps')
        ∧ k s' caps' = Some res) as Hloop.
    { assert (∀ n s caps,
                (if min <=? n then k s caps else None) = Some res →
                ∃ ps s' caps',
                  s = flatten ps +:+ s'
                  ∧ Forall (lang r) ps ∧ min - n ≤ length ps
                  ∧ length caps' = length caps
                  ∧ (∀ i, caps' !! i = caps !! i ∨ setBy (groups r) i caps')
                  ∧ (1 ≤ min - n → ∀ i, i ∈ mustIdx r → i < length caps →
                                        setBy (groups r) i caps')
                  ∧ k s' caps' = Some res) as Hstop.
      { intros n s0 caps0 H0. destruct (min <=? n) eqn:Hmin; [|done].
        apply Nat.leb_le in Hmin. exists [], s0, caps0. simpl.
        repeat split; [constructor|lia|by left|lia|done]. }
      induction fuel as [|fuel IHf]; intros n s0 caps0 H0; [by apply Hstop|].
      match type of H0 with
      | match ?X with _ => _ end = _ => destruct X as [a|] eqn:E
      end; [|by apply Hstop].
      simplify_eq.
      apply IH in E as (p1 & s1 & caps1 & -> & Hl1 & Hc1 & Hd1 & Hm1 & E).
      destruct (String.length s1 <? String.length (p1 +:+ s1)); [|done].
      apply IHf in E as (ps & s2 & caps2 & -> & Hps & Hn & Hc2 & Hd2 & Hm2 & E).
      exists (p1 :: ps), s2, caps2. simpl. rewrite append_assoc.
      repeat split; [by constructor|lia|congruence| | |done].
      - intros i.
        destruct (setBy_seq _ _ caps0 caps1 caps2 Hd1 Hd2 i) as [E'|S'];
          [by left|right; by apply setBy_dup].
      - intros _ i Hi Hlt. specialize (Hm1 i Hi Hlt).
        destruct (Hd2 i) as [E2|S2]; [by eapply setBy_lookup|done]. }
    apply Hloop in H as (ps & s' & caps' & -> & Hps & Hn & Hc & Hd & Hm & H).
    exists (flatten ps), s', caps'. simpl.
    repeat split; [exists ps; repeat split; [done|lia]|done|done| |done].
    intros i Hi Hlt. destruct (min =? 0) eqn:Hmin; [by apply elem_of_nil in Hi|].
    apply Nat.eqb_neq in Hmin. apply Hm; [lia|done..].
  - apply IH in H as (p & s' & caps' & -> & Hl & Hc & Hd & Hm & H).
    rewrite consumed_app in H.
    exists p, s', (<[i := p]> caps'). simpl.
    assert (i < length caps' → setBy ((i, r) :: groups r) i (<[i := p]> caps')) as Hset.
    { intros Hlt. exists r, p. split; [by left|].
      split; [by apply list_lookup_insert_eq|done]. }
    assert (∀ j, j ≠ i → setBy (groups r) j caps' →
                 setBy ((i, r) :: groups r) j (<[i := p]> caps')) as Hkeep.
    { intros j Hj S. eapply setBy_mono; [|eapply setBy_lookup; [|exact S]].
      - set_solver.
      - by apply list_lookup_insert_ne. }
    repeat split; [done|by rewrite length_insert| | |done].
    + intros j. destruct (decide (j = i)) as [->|Hj].
      * destruct (decide (i < length caps')) as [Hlt|Hge]; [right; auto|].
        left. rewrite list_insert_ge by lia.
        rewrite !lookup_ge_None_2; [done|lia..].
      * rewrite list_lookup_insert_ne by done.
        destruct (Hd j) as [E|S]; [by left|right; auto].
    + intros j Hj Hlt. destruct (decide (j = i)) as [->|Hne].
      * apply Hset. lia.
      * apply elem_of_cons in Hj as [->|Hj]; [done|]. auto.
Qed.

(** A pattern without groups leaves the captures as they are. *)
Lemma rxMatch_plain {A : Type} (r : regexp.Regexp) s caps
    (k : string → list string → option A) res :
  groups r = [] →
  regexp.rxMatch r s caps k = Some res →
  ∃ p s', s = p +:+ s' ∧ lang r p ∧ k s' caps = Some res.
Proof.
  intros Hg H.
  apply rxMatch_matched in H as (p & s' & caps' & -> & Hl & Hc & Hd & _ & H).
  exists p, s'. split; [done|]. split; [done|].
  replace caps with caps'; [done|].
  apply list_eq. intros i. destruct (Hd i) as [E|(r' & q & Hin & _)]; [done|].
  rewrite Hg in Hin. by apply elem_of_nil in Hin.
Qed.

Lemma allBytes_app (c : ascii → bool) (a b : string) :
  allBytes c (a +:+ b) = allBytes c a && allBytes c b.
Proof.
  induction a as [|x a IH]; [done|].
  rewrite append_cons. simpl. by rewrite IH, andb_assoc.
Qed.

(** A repetition of a class matches texts of bytes of the class. *)
Lemma lang_repeat_class (min : nat) (c : ascii → bool) (p : string) :
  lang (regexp.Repeat min (regexp.Class c)) p →
  allBytes c p = true ∧ min ≤ String.length p.
Proof.
  intros (ps & -> & Hps & Hmin). revert min Hmin.
  induction Hps as [|q ps (x & -> & Hx) _ IH]; intros min Hmin; simpl in *.
  - split; [done|lia].
  - destruct (IH (pred min) ltac:(lia)) as [Hall Hlen].
    change ("" +:+ flatten ps) with (flatten ps).
    rewrite Hx, Hall. split; [done|lia].
Qed.

Lemma leftmost_split (r : regexp.Regexp) (s : string) m :
  regexp.leftmost r s = Some m →
  ∃ before s0, s = before +:+ s0 ∧ regexp.matchHere r s0 = Some m.
Proof.
  induction s as [|c s IH]; simpl; intros H.
  - destruct (regexp.matchHere r "") eqn:E; [|done]. exists "", "". by simplify_eq.
  - destruct (regexp.matchHere r (String c s)) eqn:E.
    + exists "", (String c s). by simplify_eq.
    + apply IH in H as (before & s0 & -> & H).
      by exists (String c before), s0.
Qed.

(** The parts of a line that matches the pattern of the annotations. *)
Lemma annotation_parts (line : string) (m : rxutil.MatchResult) :
  rxutil.Match line rxFnDocString = Some m →
  ∃ before ws1 ws2 name ws3 doc after,
    line = before +:+ "//" +:+ ws1 +:+ "fn" +:+ ws2
             +:+ name +:+ ":" +:+ ws3 +:+ doc +:+ after
    ∧ rxutil.Group m "func" = name
    ∧ rxutil.Group m "docstring" = doc
    ∧ allBytes regexp.class_space ws1 = true
    ∧ allBytes regexp.class_space ws2 = true
    ∧ allBytes regexp.class_space ws3 = true
    ∧ 1 ≤ String.length name
    ∧ allBytes (regexp.class_not ":"%char) name = true
    ∧ allBytes regexp.class_dot doc = true.
Proof.
  unfold rxutil.Match, regexp.FindStringSubmatch.
  destruct (regexp.leftmost rxFnDocString line) as [[ms rest]|] eqn:E; [|done].
  simpl. intros [= <-].
  change (rxutil.Group _ "func") with (default "" (ms !! 1)).
  change (rxutil.Group _ "docstring") with (default "" (ms !! 2)).
  apply leftmost_split in E as (before & s0 & -> & E).
  unfold regexp.matchHere in E.
  change (length (regexp.SubexpNames rxFnDocString)) with 3 in E.
  cbv [rxFnDocString Concat foldr] in E.
  rewrite rxMatch_Cat in E.
  apply rxMatch_plain in E as (? & s1 & -> & -> & E); [|done].
  rewrite rxMatch_Cat in E.
  apply rxMatch_plain in E as (ws1 & s2 & -> & [Hws1 _]%lang_repeat_class & E); [|done].
  rewrite rxMatch_Cat in E.
  apply rxMatch_plain in E as (? & s3 & -> & -> & E); [|done].
  rewrite rxMatch_Cat in E.
  apply rxMatch_plain in E as (ws2 & s4 & -> & [Hws2 _]%lang_repeat_class & E); [|done].
  rewrite rxMatch_Cat, rxMatch_Capture in E.
  apply rxMatch_plain in E as (name & s5 & -> & [Hname Hlen]%lang_repeat_class & E); [|done].
  rewrite consumed_app in E.
  rewrite rxMatch_Cat in E.
  apply rxMatch_plain in E as (? & s6 & -> & -> & E); [|done].
  rewrite rxMatch_Cat in E.
  apply rxMatch_plain in E as (ws3 & s7 & -> & [Hws3 _]%lang_repeat_class & E); [|done].
  rewrite rxMatch_Cat, rxMatch_Capture in E.
  apply rxMatch_plain in E as (doc & s8 & -> & [Hdoc _]%lang_repeat_class & E); [|done].
  rewrite consumed_app in E.
  apply rxMatch_plain in E as (e & after & -> & He & E); [|done].
  simpl in He. subst e. simplify_eq. simpl.
  exists before, ws1, ws2, name, ws3, doc, rest.
  repeat split; done.
Qed.

(** X11: an annotation line reads as its pattern says.  When a line
    matches, it holds two slashes, white space, [fn], white space, the
    function name, a colon, white space and the docstring, in this order;
    the name returned is not empty and holds no colon, and the docstring
    returned holds no line feed. *)
Theorem X11_annotation_grammar (line : string) (m : rxutil.MatchResult) :
  rxutil.Match line rxFnDocString = Some m →
  ∃ before ws1 ws2 ws3 after,
    line = before +:+ "//" +:+ ws1 +:+ "fn" +:+ ws2
             +:+ rxutil.Group m "func" +:+ ":" +:+ ws3
             +:+ rxutil.Group m "docstring" +:+ after
    ∧ allBytes regexp.class_space ws1 = true
    ∧ allBytes regexp.class_space ws2 = true
    ∧ allBytes regexp.class_space ws3 = true
    ∧ rxutil.Group m "func" ≠ ""
    ∧ allBytes (regexp.class_not ":"%char) (rxutil.Group m "func") = true
    ∧ allBytes regexp.class_dot (rxutil.Group m "docstring") = true.
Proof.
  intros H.
  apply annotation_parts in H
    as (before & ws1 & ws2 & name & ws3 & doc & after
        & -> & -> & -> & Hws1 & Hws2 & Hws3 & Hlen & Hname & Hdoc).
  exists before, ws1, ws2, ws3, after.
  repeat split; try done.
  destruct name; [simpl in Hlen; lia|done].
Qed.

(** The line of scenario A. *)
Lemma X11_annotation_grammar_witness :
  ∃ before ws1 ws2 ws3 after,
    "// fn Add: adds *a* and *b* together."
    = before +:+ "//" +:+ ws1 +:+ "fn" +:+ ws2
        +:+ rxutil.Group (matchOf "// fn Add: adds *a* and *b* together.") "func"
        +:+ ":" +:+ ws3
        +:+ rxutil.Group (matchOf "// fn Add: adds *a* and *b* together.") "docstring"
        +:+ after
    ∧ allBytes regexp.class_space ws1 = true
    ∧ allBytes regexp.class_space ws2 = true
    ∧ allBytes regexp.class_space ws3 = true
    ∧ rxutil.Group (matchOf "// fn Add: adds *a* and *b* together.") "func" ≠ ""
    ∧ allBytes (regexp.class_not ":"%char)
        (rxutil.Group (matchOf "// fn Add: adds *a* and *b* together.") "func") = true
    ∧ allBytes regexp.class_dot
        (rxutil.Group (matchOf "// fn Add: adds *a* and *b* together.") "docstring")
      = true.
Proof.
  apply (X11_annotation_grammar "// fn Add: adds *a* and *b* together."
           (matchOf "// fn Add: adds *a* and *b* together.")).
  vm_compute. reflexivity.
Defined.

(** X12: a line without a colon, or with fewer than two slashes, is never
    an annotation line. *)
Theorem X12_lines_that_never_match (line : string) :
  CountByte ":"%char line = 0 ∨ CountByte "/"%char line < 2 →
  rxutil.Match line rxFnDocString = None.
Proof.
  intros H.
  destruct (rxutil.Match line rxFnDocString) as [m|] eqn:E; [|done].
  apply annotation_parts in E
    as (before & ws1 & ws2 & name & ws3 & doc & after & -> & _).
  rewrite !CountByte_app in H.
  change (CountByte ":"%char ":") with 1 in H.
  change (CountByte "/"%char "//") with 2 in H.
  lia.
Qed.

(** The second line of scenario C has no colon. *)
Lemma X12_lines_that_never_match_witness :
  rxutil.Match "// Useful for testing." rxFnDocString = None.
Proof.
  apply (X12_lines_that_never_match "// Useful for testing.").
  left. reflexivity.
Defined.

Lemma findAll_elem (r : regexp.Regexp) (fuel : nat) :
  ∀ s m, m ∈ regexp.findAll fuel r s →
         ∃ s0 rest, regexp.matchHere r s0 = Some (m, rest).
Proof.
  induction fuel as [|fuel IH]; intros s m Hm; simpl in Hm.
  - by apply elem_of_nil in Hm.
  - destruct (regexp.leftmost r s) as [[m0 rest]|] eqn:E;
      [|by apply elem_of_nil in Hm].
    apply leftmost_split in E as (before & s0 & -> & E).
    apply elem_of_cons in Hm as [->|Hm]; [by eauto|].
    destruct (String.length rest <? String.length (before +:+ s0)); [by eauto|].
    destruct rest as [|c rest]; [by apply elem_of_nil in Hm|by eauto].
Qed.

(** X13: every argument name taken from a docstring is a word: it is not
    empty and is made of letters, digits and underscores only. *)
Theorem X13_argument_names_are_words (docstring : string) :
  Forall (fun argName =>
            argName ≠ "" ∧ allBytes regexp.class_word argName = true)
         (argNamesOf docstring).
Proof.
  unfold argNamesOf, rxutil.Match.
  destruct (regexp.FindStringSubmatch rxArgNames docstring); [|constructor].
  unfold rxutil.AllCaptures. cbn [rxutil.all_submatches].
  unfold regexp.FindAllStringSubmatch.
  apply Forall_forall. intros argName Hin.
  apply list_elem_of_In, in_concat in Hin as (caps & Hcaps & Hin).
  apply in_map_iff in Hcaps as (m & <- & Hm).
  apply list_elem_of_In, findAll_elem in Hm as (s0 & rest & Hm).
  unfold regexp.matchHere in Hm.
  change (length (regexp.SubexpNames rxArgNames)) with 2 in Hm.
  apply rxMatch_matched in Hm as (p & s' & caps' & _ & _ & Hlen & _ & Hmust & Hm).
  specialize (Hmust 1).
  destruct Hmust as (r' & q & Hr' & Hq & Hl); [by left|simpl; lia|].
  apply list_elem_of_singleton in Hr'. injection Hr' as ->.
  apply lang_repeat_class in Hl as [Hword Hne].
  simplify_eq. simpl in Hlen.
  destruct caps' as [|w [|c1 [|? ?]]]; simplify_eq/=.
  destruct Hin as [<-|[]].
  split; [|done]. destruct q; [simpl in Hne; lia|done].
Qed.

(** X14: a docstring with fewer than two stars has no argument names. *)
Theorem X14_no_markers_no_argument_names (docstring : string) :
  CountByte "*"%char docstring < 2 → argNamesOf docstring = [].
Proof.
  intros H. unfold argNamesOf, rxutil.Match, regexp.FindStringSubmatch.
  destruct (regexp.leftmost rxArgNames docstring) as [[ms rest]|] eqn:E; [|done].
  exfalso.
  apply leftmost_split in E as (before & s0 & -> & E).
  unfold regexp.matchHere in E.
  apply rxMatch_matched in E as (p & s' & caps' & -> & Hl & _).
  destruct Hl as (ps & -> & Hps & Hlen).
  destruct Hps as [|q ps Hq _]; [simpl in Hlen; lia|].
  destruct Hq as (star1 & q1 & -> & -> & name & q2 & -> & _ & star2 & e & -> & -> & _).
  simpl in H. rewrite !CountByte_app in H.
  change (CountByte "*"%char "*") with 1 in H. lia.
Qed.

(** The second line of scenario C as a docstring. *)
Lemma X14_no_markers_no_argument_names_witness :
  argNamesOf "Useful for testing." = [].
Proof.
  apply (X14_no_markers_no_argument_names "Useful for testing.").
  vm_compute. lia.
Defined.

(* ===================================================================== *)
(** ** Properties of diecast/main.go *)
(* ===================================================================== *)

Lemma rev_app_append (s t : string) : String.rev_app s t = String.rev s +:+ t.
Proof.
  unfold String.rev. revert t.
  induction s as [|a s IH]; intros t; [done|]. simpl.
  rewrite (IH (String a t)), (IH (String a "")).
  by rewrite append_assoc.
Qed.

Lemma rev_cons (a : ascii) (s : string) :
  String.rev (String a s) = String.rev s +:+ String a "".
Proof. unfold String.rev at 1. simpl. by rewrite rev_app_append. Qed.

Lemma rev_append (a b : string) :
  String.rev (a +:+ b) = String.rev b +:+ String.rev a.
Proof.
  induction a as [|x a IH].
  - by rewrite append_nil_r.
  - by rewrite append_cons, !rev_cons, IH, append_assoc.
Qed.

Lemma rev_rev (s : string) : String.rev (String.rev s) = s.
Proof.
  induction s as [|a s IH]; [done|]. by rewrite rev_cons, rev_append, IH.
Qed.

Lemma allBytes_rev (c : ascii → bool) (s : string) :
  allBytes c (String.rev s) = allBytes c s.
Proof.
  induction s as [|a s IH]; [done|].
  rewrite rev_cons, allBytes_app, IH. simpl.
  rewrite andb_true_r. apply andb_comm.
Qed.

Lemma length_rev (s : string) : String.length (String.rev s) = String.length s.
Proof.
  induction s as [|a s IH]; [done|].
  rewrite rev_cons, length_append, IH. simpl. lia.
Qed.

Lemma upToSeparator_app (a b : string) :
  allBytes noSeparator a = true →
  filepath.upToSeparator (a +:+ String "/"%char b) = a.
Proof.
  induction a as [|x a IH]; [done|]. simpl.
  intros [Hx Ha]%andb_true_iff. rewrite ?append_cons. simpl.
  unfold noSeparator in Hx. apply negb_true_iff in Hx. rewrite Hx.
  by rewrite IH.
Qed.

Lemma upToSeparator_all (a : string) :
  allBytes noSeparator a = true → filepath.upToSeparator a = a.
Proof.
  induction a as [|x a IH]; [done|]. simpl.
  intros [Hx Ha]%andb_true_iff.
  unfold noSeparator in Hx. apply negb_true_iff in Hx. rewrite Hx.
  by rewrite IH.
Qed.

Lemma dropSeparators_head (a b : string) :
  a ≠ "" → allBytes noSeparator a = true →
  filepath.dropSeparators (a +:+ b) = a +:+ b.
Proof.
  destruct a as [|x a]; [done|]. intros _. simpl.
  intros [Hx _]%andb_true_iff. rewrite ?append_cons. simpl.
  unfold noSeparator in Hx. apply negb_true_iff in Hx. by rewrite Hx.
Qed.

Lemma rev_not_empty (s : string) : s ≠ "" → String.rev s ≠ "".
Proof.
  intros Hs Hr. apply Hs. rewrite <- (rev_rev s). by rewrite Hr.
Qed.

Lemma append_not_empty_l (a b : string) : b ≠ "" → a +:+ b ≠ "".
Proof. destruct a; [done|]. intros _. by rewrite append_cons. Qed.

(** The base of an entry [name] of a directory [dir]. *)
Lemma Base_entry (dir name : string) :
  name ≠ "" → allBytes noSeparator name = true →
  filepath.Base (dir +:+ "/" +:+ name) = name.
Proof.
  intros Hne Hname. unfold filepath.Base.
  assert (dir +:+ "/" +:+ name ≠ "") as Hp.
  { apply append_not_empty_l. by rewrite append_cons. }
  apply String.eqb_neq in Hp. rewrite Hp.
  rewrite !rev_append, append_assoc.
  rewrite dropSeparators_head;
    [|by apply rev_not_empty|by rewrite allBytes_rev].
  change (String.rev "/") with "/".
  change ("/" +:+ String.rev dir) with (String "/"%char (String.rev dir)).
  rewrite upToSeparator_app by (by rewrite allBytes_rev).
  rewrite rev_rev. apply String.eqb_neq in Hne. by rewrite Hne.
Qed.

Lemma extFrom_dot (a b acc : string) :
  allBytes noSeparatorNoDot a = true →
  filepath.extFrom (a +:+ String "."%char b) acc
  = String "."%char (String.rev a +:+ acc).
Proof.
  revert acc. induction a as [|x a IH]; intros acc; [done|]. simpl.
  intros [Hx Ha]%andb_true_iff. rewrite ?append_cons. simpl.
  apply andb_true_iff in Hx as [Hs Hd]. apply negb_true_iff in Hs, Hd.
  rewrite Hs, Hd, IH by done. by rewrite rev_cons, append_assoc.
Qed.

Lemma extFrom_none (a b acc : string) :
  allBytes noSeparatorNoDot a = true →
  filepath.extFrom (a +:+ String "/"%char b) acc = "".
Proof.
  revert acc. induction a as [|x a IH]; intros acc; [done|]. simpl.
  intros [Hx Ha]%andb_true_iff. rewrite ?append_cons. simpl.
  apply andb_true_iff in Hx as [Hs Hd]. apply negb_true_iff in Hs, Hd.
  by rewrite Hs, Hd, IH.
Qed.

Lemma HasSuffix_app (a b : string) : HasSuffix (a +:+ b) b = true.
Proof.
  unfold HasSuffix. rewrite length_append.
  replace (String.length a + String.length b - String.length b)
    with (String.length a) by lia.
  apply andb_true_iff. split; [apply Nat.leb_le; lia|].
  apply String.eqb_eq. clear. induction a as [|x a IH]; [done|].
  by rewrite append_cons.
Qed.

Lemma TrimSuffix_app (a b : string) : TrimSuffix (a +:+ b) b = a.
Proof.
  unfold TrimSuffix. rewrite HasSuffix_app, length_append.
  replace (String.length a + String.length b - String.length b)
    with (String.length a) by lia.
  apply take_app.
Qed.

Lemma HasPrefix_app (p s : string) : strings.HasPrefix (p +:+ s) p = true.
Proof.
  induction p as [|x p IH]; [done|]. rewrite ?append_cons. simpl.
  by rewrite Ascii.eqb_refl, IH.
Qed.

Lemma TrimPrefix_app (p s : string) : strings.TrimPrefix (p +:+ s) p = s.
Proof.
  unfold strings.TrimPrefix. rewrite HasPrefix_app.
  induction p as [|x p IH]; [done|]. by rewrite append_cons.
Qed.

Lemma ContainsString_elem (l : list string) (x : string) :
  sliceutil.ContainsString l x = true ↔ x ∈ l.
Proof.
  induction l as [|y l IH]; simpl.
  - split; [done|by intros ?%elem_of_nil].
  - rewrite orb_true_iff, IH, elem_of_cons, String.eqb_eq.
    split; (intros [->|?]; [by left|by right]).
Qed.

(** What one call of the function of the walk does to the paths. *)
Lemma walkFn_paths (servePath : string) (paths : list string) (path : string)
    (isDir : bool) :
  (diecast_main.walkFn servePath paths path isDir).2 = paths
  ∨ ∃ urlPath, (diecast_main.walkFn servePath paths path isDir).2
               = paths ++ ["/" +:+ urlPath]
               ∧ "/" +:+ urlPath ∉ paths.
Proof.
  unfold diecast_main.walkFn.
  destruct (strings.HasPrefix _ "_"); [destruct isDir; by left|].
  destruct (HasSuffix _ "__id"); [by left|].
  destruct isDir; simpl; [by left|].
  destruct (sliceutil.ContainsString paths _) eqn:E; simpl; [by left|].
  right. eexists. split; [done|].
  intros Hin%ContainsString_elem. congruence.
Qed.

(** X15: whatever the entries are that the walk visits, the list of URL
    paths gathered from the empty list never holds a path twice, and every
    path in it begins with a slash. *)
Theorem X15_gathered_paths_are_distinct (servePath : string)
    (visits : list (string * bool)) :
  NoDup (gathered servePath visits [])
  ∧ Forall (fun urlPath => strings.HasPrefix urlPath "/" = true)
           (gathered servePath visits []).
Proof.
  unfold gathered.
  assert (∀ paths,
            NoDup paths ∧ Forall (fun u => strings.HasPrefix u "/" = true) paths →
            NoDup (foldl (fun ps v => (diecast_main.walkFn servePath ps v.1 v.2).2)
                         paths visits)
            ∧ Forall (fun u => strings.HasPrefix u "/" = true)
                (foldl (fun ps v => (diecast_main.walkFn servePath ps v.1 v.2).2)
                       paths visits)) as H.
  { induction visits as [|[path isDir] visits IH]; intros paths [Hnd Hall];
      [done|].
    simpl. apply IH.
    destruct (walkFn_paths servePath paths path isDir) as [->|(u & -> & Hu)];
      [done|].
    split.
    - apply NoDup_app. split; [done|]. split; [|apply NoDup_singleton].
      intros x Hx ->%list_elem_of_singleton. done.
    - apply Forall_app. split; [done|]. by repeat constructor. }
  apply H. split; constructor.
Qed.

Lemma allBytes_weaken (c c' : ascii → bool) (s : string) :
  (∀ x, c x = true → c' x = true) →
  allBytes c s = true → allBytes c' s = true.
Proof.
  intros Hc. induction s as [|x s IH]; [done|]. simpl.
  intros [Hx Hs]%andb_true_iff. by rewrite (Hc x Hx), IH.
Qed.

(** X16: an entry of a directory whose name begins with an underscore is
    never gathered; for a directory the function returns [SkipDir], so that
    the walk does not go into it, and for a file it returns nil. *)
Theorem X16_underscore_entries_are_skipped (servePath dir rest : string)
    (paths : list string) (isDir : bool) :
  allBytes noSeparator rest = true →
  diecast_main.walkFn servePath paths (dir +:+ "/" +:+ "_" +:+ rest) isDir
  = (if isDir then Some filepath.SkipDir else None, paths).
Proof.
  intros Hrest. unfold diecast_main.walkFn.
  rewrite (Base_entry dir ("_" +:+ rest)); [|done|by simpl].
  rewrite HasPrefix_app. by destruct isDir.
Qed.

(** The directory [_layouts] of the site. *)
Lemma X16_underscore_entries_are_skipped_witness :
  diecast_main.walkFn "site" ["/index.html"] ("site" +:+ "/" +:+ "_" +:+ "layouts") true
  = (Some filepath.SkipDir, ["/index.html"]).
Proof.
  apply (X16_underscore_entries_are_skipped "site" "site" "layouts"
           ["/index.html"] true).
  reflexivity.
Defined.

(** X17: the function of the walk never gathers a directory, never returns
    an error for a file, and the only error it returns for a directory is
    [SkipDir]. *)
Theorem X17_walk_errors (servePath : string) (paths : list string) (path : string) :
  (diecast_main.walkFn servePath paths path true).2 = paths
  ∧ (diecast_main.walkFn servePath paths path false).1 = None
  ∧ ((diecast_main.walkFn servePath paths path true).1 = None
     ∨ (diecast_main.walkFn servePath paths path true).1 = Some filepath.SkipDir).
Proof.
  unfold diecast_main.walkFn.
  destruct (strings.HasPrefix _ "_"); [by auto|].
  destruct (HasSuffix _ "__id"); [by auto|]. simpl.
  destruct (sliceutil.ContainsString paths _); by auto.
Qed.

(** X18: an entry of a directory whose name, without its extension, ends
    in [__id] is never gathered: the name is [stem__id] without a dot, or
    [stem__id.ext] with an extension [ext] without a dot. *)
Theorem X18_id_entries_are_not_gathered (servePath dir stem ext : string)
    (paths : list string) (isDir : bool) :
  allBytes noSeparator stem = true →
  (ext = "" ∧ allBytes noSeparatorNoDot stem = true)
  ∨ (∃ e, ext = "." +:+ e ∧ allBytes noSeparatorNoDot e = true) →
  (diecast_main.walkFn servePath paths
     (dir +:+ "/" +:+ stem +:+ "__id" +:+ ext) isDir).2 = paths.
Proof.
  intros Hstem Hext. unfold diecast_main.walkFn.
  assert (allBytes noSeparator ext = true) as Hext'.
  { destruct Hext as [[-> _]|(e & -> & He)]; [done|].
    change ("." +:+ e) with (String "."%char e). simpl.
    revert He. apply allBytes_weaken.
    by intros x [Hs _]%andb_true_iff. }
  rewrite (Base_entry dir (stem +:+ "__id" +:+ ext)).
  2:{ apply append_not_empty_l. by rewrite append_cons. }
  2:{ by rewrite !allBytes_app, Hstem, Hext'. }
  destruct (strings.HasPrefix _ "_"); [by destruct isDir|].
  assert (HasSuffix (TrimSuffix (stem +:+ "__id" +:+ ext)
                       (filepath.Ext (dir +:+ "/" +:+ stem +:+ "__id" +:+ ext)))
                    "__id" = true) as ->; [|done].
  unfold filepath.Ext.
  destruct Hext as [[-> Hs]|(e & -> & He)].
  - rewrite append_nil_r, !rev_append, append_assoc.
    change (String.rev "/" +:+ String.rev dir)
      with (String "/"%char (String.rev dir)).
    rewrite <- rev_append, extFrom_none.
    2:{ by rewrite allBytes_rev, allBytes_app, Hs. }
    rewrite <- (append_nil_r (stem +:+ "__id")) at 1.
    by rewrite TrimSuffix_app, HasSuffix_app.
  - rewrite <- !append_assoc, rev_append, (rev_append _ ".").
    change (String.rev "." +:+ ?x) with (String "."%char x).
    rewrite extFrom_dot by (by rewrite allBytes_rev).
    rewrite rev_rev, append_nil_r.
    change (String "."%char e) with ("." +:+ e).
    rewrite (append_assoc (stem +:+ "__id") "." e).
    by rewrite TrimSuffix_app, HasSuffix_app.
Qed.

(** The template [user__id.html] of the directory [users]. *)
Lemma X18_id_entries_are_not_gathered_witness :
  (diecast_main.walkFn "site" ["/index.html"]
     ("site/users" +:+ "/" +:+ "user" +:+ "__id" +:+ ".html") false).2
  = ["/index.html"].
Proof.
  apply (X18_id_entries_are_not_gathered "site" "site/users" "user" ".html"
           ["/index.html"] false).
  - reflexivity.
  - right. exists "html". split; reflexivity.
Defined.

(** X19: for a file whose path is the served path followed by [rest], with
    a base that does not begin with an underscore and does not end in
    [__id] before its extension, the URL path is a slash followed by [rest]
    without one leading slash: a file [servePath/rel] gives [/rel].  It is
    appended to the paths when it is not among them, and the paths stay as
    they are when it is.  The served path is taken off as text, so it need
    not end at a separator. *)
Theorem X19_url_path_of_a_file (servePath rest : string) (paths : list string) :
  strings.HasPrefix (filepath.Base (servePath +:+ rest)) "_" = false →
  HasSuffix (TrimSuffix (filepath.Base (servePath +:+ rest))
                        (filepath.Ext (servePath +:+ rest))) "__id" = false →
  ("/" +:+ strings.TrimPrefix rest "/" ∈ paths →
   diecast_main.walkFn servePath paths (servePath +:+ rest) false = (None, paths))
  ∧ ("/" +:+ strings.TrimPrefix rest "/" ∉ paths →
     diecast_main.walkFn servePath paths (servePath +:+ rest) false
     = (None, paths ++ ["/" +:+ strings.TrimPrefix rest "/"])).
Proof.
  intros Hu Hid. unfold diecast_main.walkFn.
  rewrite Hu, Hid, TrimPrefix_app. simpl.
  split; intros Hin.
  - apply ContainsString_elem in Hin. by rewrite Hin.
  - destruct (sliceutil.ContainsString paths _) eqn:E; [|done].
    by apply ContainsString_elem in E.
Qed.

(** The file [site/a/b.html] of the served path [site]. *)
Lemma X19_url_path_of_a_file_witness :
  diecast_main.walkFn "site" ["/index.html"] ("site" +:+ "/a/b.html") false
  = (None, ["/index.html"] ++ ["/" +:+ strings.TrimPrefix "/a/b.html" "/"]).
Proof.
  apply (X19_url_path_of_a_file "site" "/a/b.html" ["/index.html"]).
  - reflexivity.
  - reflexivity.
  - intros [H|H]%elem_of_cons; [discriminate H|by apply elem_of_nil in H].
Defined.

Section MountFacts.

Context {ProxyTarget OtherMount : Type}.
Variable NewMountFromSpec : string → diecast_main.Mount ProxyTarget OtherMount + error.
Variables passRequests passErrors : bool.

(** The mounts the loop returns are the mounts it had, followed by those
    of the specifications. *)
Lemma mountLoop_mounts (specs : list string) :
  ∀ i mounts log,
    (diecast_main.mountLoop NewMountFromSpec passRequests passErrors
       specs i mounts log).1
    = mounts ++ mountsOf NewMountFromSpec passRequests passErrors specs.
Proof.
  unfold mountsOf.
  induction specs as [|spec specs IH]; intros i mounts log; simpl.
  - by rewrite app_nil_r.
  - destruct (NewMountFromSpec spec) as [[p|m]|err].
    + rewrite IH. symmetry. rewrite IH. by rewrite <- app_assoc.
    + rewrite IH. symmetry. rewrite IH. by rewrite <- app_assoc.
    + rewrite IH. symmetry. by rewrite IH.
Qed.

Lemma mountsOf_app (specs1 specs2 : list string) :
  mountsOf NewMountFromSpec passRequests passErrors (specs1 ++ specs2)
  = mountsOf NewMountFromSpec passRequests passErrors specs1
    ++ mountsOf NewMountFromSpec passRequests passErrors specs2.
Proof.
  induction specs1 as [|spec specs1 IH]; [done|].
  unfold mountsOf at 1 2. simpl.
  destruct (NewMountFromSpec spec) as [[p|m]|err];
    rewrite !mountLoop_mounts, IH; by rewrite ?app_assoc.
Qed.

End MountFacts.

(** X20: every proxy mount that the loop of the mounts returns has its two
    passthrough settings equal to the two flags of the command line,
    whatever [NewMountFromSpec] had set. *)
Theorem X20_proxy_mounts_take_the_flags {ProxyTarget OtherMount : Type}
    (NewMountFromSpec : string → diecast_main.Mount ProxyTarget OtherMount + error)
    (passRequests passErrors : bool) (specs : list string) :
  Forall (fun mount =>
            match mount with
            | diecast_main.Proxy proxyMount =>
                diecast_main.PassthroughRequests proxyMount = passRequests
                ∧ diecast_main.PassthroughErrors proxyMount = passErrors
            | diecast_main.Other _ => True
            end)
         (mountsOf NewMountFromSpec passRequests passErrors specs).
Proof.
  induction specs as [|spec specs IH]; [constructor|].
  unfold mountsOf. simpl.
  destruct (NewMountFromSpec spec) as [[p|m]|err];
    rewrite mountLoop_mounts; [| |done].
  - apply Forall_app. split; [|done]. by repeat constructor.
  - apply Forall_app. split; [|done]. by repeat constructor.
Qed.

(** X21: a specification that [NewMountFromSpec] rejects is passed over
    without an error: the mounts are those of the other specifications, in
    their order. *)
Theorem X21_rejected_specification_is_skipped {ProxyTarget OtherMount : Type}
    (NewMountFromSpec : string → diecast_main.Mount ProxyTarget OtherMount + error)
    (passRequests passErrors : bool) (specs1 specs2 : list string)
    (bad : string) (err : error) :
  NewMountFromSpec bad = inr err →
  mountsOf NewMountFromSpec passRequests passErrors (specs1 ++ bad :: specs2)
  = mountsOf NewMountFromSpec passRequests passErrors (specs1 ++ specs2).
Proof.
  intros Hbad. rewrite !mountsOf_app. f_equal.
  unfold mountsOf at 1. simpl. rewrite Hbad. by rewrite mountLoop_mounts.
Qed.

(** A function that accepts only the specification [/js:/usr/share/js]. *)
Lemma X21_rejected_specification_is_skipped_witness :
  mountsOf (fun spec : string =>
              if String.eqb spec "/js:/usr/share/js"
              then inl (diecast_main.Other (ProxyTarget := unit) spec)
              else inr "bad mount")
    true false (["/js:/usr/share/js"] ++ "nonsense" :: ["/js:/usr/share/js"])
  = mountsOf (fun spec : string =>
                if String.eqb spec "/js:/usr/share/js"
                then inl (diecast_main.Other (ProxyTarget := unit) spec)
                else inr "bad mount")
      true false (["/js:/usr/share/js"] ++ ["/js:/usr/share/js"]).
Proof.
  apply (X21_rejected_specification_is_skipped
           (fun spec : string =>
              if String.eqb spec "/js:/usr/share/js"
              then inl (diecast_main.Other (ProxyTarget := unit) spec)
              else inr "bad mount")
           true false ["/js:/usr/share/js"] ["/js:/usr/share/js"]
           "nonsense" "bad mount").
  reflexivity.
Defined.

(* ===================================================================== *)
(** ** A well-formed annotation line is read back *)
(* ===================================================================== *)

Lemma drop_app (p s : string) : strings.drop (String.length p) (p +:+ s) = s.
Proof. induction p as [|x p IH]; [done|]. by rewrite append_cons. Qed.

Lemma take_all (s : string) : strings.take (String.length s) s = s.
Proof. induction s as [|x s IH]; [done|]. simpl. by rewrite IH. Qed.

Lemma rxMatch_Lit {A : Type} (l s : string) caps
    (k : string → list string → option A) :
  regexp.rxMatch (regexp.Lit l) (l +:+ s) caps k = k s caps.
Proof. simpl. by rewrite HasPrefix_app, drop_app. Qed.

(** A greedy repetition of a class takes all the bytes of the class in
    front, when what follows matches from there. *)
Lemma rxMatch_repeat_greedy {A : Type} (min : nat) (c : ascii → bool)
    (a s : string) caps (k : string → list string → option A) res :
  allBytes c a = true →
  stopsAt c s = true →
  min ≤ String.length a →
  k s caps = Some res →
  regexp.rxMatch (regexp.Repeat min (regexp.Class c)) (a +:+ s) caps k = Some res.
Proof.
  intros Ha Hs Hmin Hk. simpl.
  assert (String.length a ≤ String.length (a +:+ s)) as Hfuel
    by (rewrite length_append; lia).
  revert Hfuel. generalize (String.length (a +:+ s)) as fuel.
  assert (min ≤ 0 + String.length a) as Hn by lia.
  clear Hmin. revert Hn. generalize 0 as n.
  intros n Hn fuel. revert n Hn fuel Ha.
  induction a as [|x a IH]; intros n Hn fuel Ha Hfuel.
  - change ("" +:+ s) with s.
    assert ((min <=? n) = true) as Hle by (apply Nat.leb_le; simpl in Hn; lia).
    destruct fuel as [|fuel]; [by rewrite Hle|].
    destruct s as [|y s]; [by rewrite Hle|].
    simpl in Hs. apply negb_true_iff in Hs. by rewrite Hs, Hle.
  - simpl in Ha. apply andb_true_iff in Ha as [Hx Ha].
    destruct fuel as [|fuel]; [simpl in Hfuel; lia|].
    rewrite append_cons. cbn [regexp.rxMatch]. rewrite Hx.
    assert ((String.length (a +:+ s) <? String.length (String x (a +:+ s))) = true)
      as -> by (apply Nat.ltb_lt; simpl; lia).
    rewrite (IH (S n)); [done|simpl in Hn; lia|done|simpl in Hfuel; lia].
Qed.

Lemma leftmost_here (r : regexp.Regexp) (s : string) m :
  regexp.matchHere r s = Some m → regexp.leftmost r s = Some m.
Proof. intros H. destruct s; simpl; by rewrite H. Qed.

(** The match of a line that begins with a well-formed annotation. *)
Lemma annotation_read_back (ws1 ws2 name ws3 doc : string) :
  allBytes regexp.class_space ws1 = true →
  allBytes regexp.class_space ws2 = true →
  allBytes regexp.class_space ws3 = true →
  name ≠ "" →
  allBytes (regexp.class_not ":"%char) name = true →
  stopsAt regexp.class_space name = true →
  allBytes regexp.class_dot doc = true →
  stopsAt regexp.class_space doc = true →
  ∃ m, rxutil.Match ("//" +:+ ws1 +:+ "fn" +:+ ws2 +:+ name +:+ ":" +:+ ws3 +:+ doc)
         rxFnDocString = Some m
       ∧ rxutil.Group m "func" = name
       ∧ rxutil.Group m "docstring" = doc.
Proof.
  intros Hws1 Hws2 Hws3 Hne Hname Hname0 Hdoc Hdoc0.
  set (line := "//" +:+ ws1 +:+ "fn" +:+ ws2 +:+ name +:+ ":" +:+ ws3 +:+ doc).
  assert (regexp.matchHere rxFnDocString line
          = Some ([line; name; doc], "")) as Hm.
  { unfold regexp.matchHere, line.
    change (length (regexp.SubexpNames rxFnDocString)) with 3.
    cbv [rxFnDocString Concat foldr].
    rewrite rxMatch_Cat, rxMatch_Lit.
    rewrite rxMatch_Cat. apply rxMatch_repeat_greedy; [done|done|lia|].
    rewrite rxMatch_Cat, rxMatch_Lit.
    rewrite rxMatch_Cat. apply rxMatch_repeat_greedy; [done| |lia|].
    { destruct name; [done|]. by rewrite append_cons. }
    rewrite rxMatch_Cat, rxMatch_Capture.
    apply rxMatch_repeat_greedy; [done|done| |].
    { destruct name; [done|simpl; lia]. }
    rewrite (consumed_app name).
    rewrite rxMatch_Cat, rxMatch_Lit.
    rewrite rxMatch_Cat. apply rxMatch_repeat_greedy; [done| |lia|].
    { destruct doc; [done|]. by rewrite ?append_cons. }
    rewrite rxMatch_Cat, rxMatch_Capture.
    rewrite <- (append_nil_r doc) at 1.
    apply rxMatch_repeat_greedy; [done|done|lia|].
    cbn [regexp.rxMatch strings.HasPrefix strings.drop String.length].
    unfold regexp.consumed. cbn [String.length].
    rewrite !Nat.sub_0_r, !take_all. done. }
  apply leftmost_here in Hm.
  unfold rxutil.Match, regexp.FindStringSubmatch. fold line. rewrite Hm. simpl.
  eexists. split; [done|].
  split; reflexivity.
Qed.

Lemma word_is_name (name : string) :
  name ≠ "" → allBytes regexp.class_word name = true →
  allBytes (regexp.class_not ":"%char) name = true
  ∧ stopsAt regexp.class_space name = true.
Proof.
  intros Hne Hw. split.
  - revert Hw. apply allBytes_weaken. intros x Hx.
    unfold regexp.class_not. destruct (Ascii.eqb_spec x ":"%char) as [->|]; done.
  - destruct name as [|x name]; [done|]. simpl in *.
    apply andb_true_iff in Hw as [Hx _].
    assert (∀ y, regexp.class_space y = true → regexp.class_word y = false) as Hsp.
    { intros [[] [] [] [] [] [] [] []]; by vm_compute. }
    destruct (regexp.class_space x) eqn:E; [|done].
    apply Hsp in E. congruence.
Qed.

(** X22: the usual form of an annotation line is read back: for a name
    made of letters, digits and underscores and a docstring without a line
    feed that does not begin with white space, the line
    [// fn <name>: <docstring>] matches, with exactly that name and that
    docstring. *)
Theorem X22_usual_annotation_is_read_back (name doc : string) :
  name ≠ "" →
  allBytes regexp.class_word name = true →
  allBytes regexp.class_dot doc = true →
  stopsAt regexp.class_space doc = true →
  ∃ m, rxutil.Match ("// fn " +:+ name +:+ ": " +:+ doc) rxFnDocString = Some m
       ∧ rxutil.Group m "func" = name
       ∧ rxutil.Group m "docstring" = doc.
Proof.
  intros Hne Hw Hdoc Hdoc0.
  destruct (word_is_name name Hne Hw) as [Hcolon Hsp].
  destruct (annotation_read_back " " " " name " " doc) as (m & Hm & Hf & Hd);
    try done.
  exists m. split; [|done]. rewrite <- Hm. f_equal.
Qed.

(** The line of scenario A. *)
Lemma X22_usual_annotation_is_read_back_witness :
  ∃ m, rxutil.Match ("// fn " +:+ "Add" +:+ ": " +:+ "adds *a* and *b* together.")
         rxFnDocString = Some m
       ∧ rxutil.Group m "func" = "Add"
       ∧ rxutil.Group m "docstring" = "adds *a* and *b* together.".
Proof.
  apply (X22_usual_annotation_is_read_back "Add" "adds *a* and *b* together.").
  - discriminate.
  - reflexivity.
  - reflexivity.
  - reflexivity.
Defined.

(** X23: a group that begins with a well-formed annotation line for a
    registered function, followed only by lines that are no annotation
    lines, gives exactly one record: the name of the line, its docstring
    with the following lines appended, and the signature and returns of
    the registered function for the argument names of the docstring;
    nothing is written. *)
Theorem X23_annotated_group_gives_its_record (funcs : FuncMap) (sourcefile : string)
    (ws1 ws2 name ws3 doc : string) (conts : list ast.Comment)
    (fn : reflect.Value) :
  allBytes regexp.class_space ws1 = true →
  allBytes regexp.class_space ws2 = true →
  allBytes regexp.class_space ws3 = true →
  name ≠ "" →
  allBytes (regexp.class_not ":"%char) name = true →
  stopsAt regexp.class_space name = true →
  doc ≠ "" →
  allBytes regexp.class_dot doc = true →
  stopsAt regexp.class_space doc = true →
  funcs !! name = Some fn →
  typeutil.IsKind (typeutil.ResolveValue fn) reflect.Func = true →
  Forall (fun c => rxutil.Match (ast.Text c) rxFnDocString = None) conts →
  GenerateFunctionDocs
    (parses {| ast.Comments :=
                 [{| ast.List :=
                       ast.Build_Comment
                         ("//" +:+ ws1 +:+ "fn" +:+ ws2 +:+ name +:+ ":" +:+ ws3 +:+ doc)
                       :: conts |}] |})
    funcs sourcefile
  = (Some [{| Name := name;
              DocString := appendLines doc conts;
              Signature := (getFnSignature fn (argNamesOf doc)).1.1;
              Returns := (getFnSignature fn (argNamesOf doc)).1.2 |}],
     None, "").
Proof.
  intros Hws1 Hws2 Hws3 Hne Hname Hname0 Hdne Hdoc Hdoc0 Hfn Hk Hconts.
  destruct (annotation_read_back ws1 ws2 name ws3 doc) as (m & Hm & Hf & Hd);
    try done.
  apply IsKind_Func_iff in Hk as (fnT & Hv & Hk).
  rewrite ResolveValue_idemp in Hv.
  pose proof (getFnSignature_func fn fnT (argNamesOf doc) Hv Hk) as Hs.
  unfold GenerateFunctionDocs, parses. cbn [ast.Comments groupLoop ast.List].
  rewrite (commentLoop_accept funcs (ast.Build_Comment _) conts emptyDoc "" m fn
             (getFnSignature fn (argNamesOf doc)).1.1
             (getFnSignature fn (argNamesOf doc)).1.2 Hm).
  - rewrite Hf, Hd.
    rewrite commentLoop_continuations; [done|done|done].
  - by rewrite Hf.
  - by rewrite Hd.
  - rewrite Hd, Hs. done.
Qed.

(** Scenario C with other white space. *)
Lemma X23_annotated_group_gives_its_record_witness :
  GenerateFunctionDocs
    (parses {| ast.Comments :=
                 [{| ast.List :=
                       ast.Build_Comment
                         ("//" +:+ "" +:+ "fn" +:+ "  " +:+ "Echo" +:+ ":" +:+ " "
                               +:+ "returns *msg* unchanged.")
                       :: [ast.Build_Comment "// Useful for testing."] |}] |})
    {["Echo" := fnEcho]} "functions.go"
  = (Some [{| Name := "Echo";
              DocString := appendLines "returns *msg* unchanged."
                             [ast.Build_Comment "// Useful for testing."];
              Signature := (getFnSignature fnEcho (argNamesOf "returns *msg* unchanged.")).1.1;
              Returns := (getFnSignature fnEcho (argNamesOf "returns *msg* unchanged.")).1.2 |}],
     None, "").
Proof.
  apply (X23_annotated_group_gives_its_record {["Echo" := fnEcho]} "functions.go"
           "" "  " "Echo" " " "returns *msg* unchanged."
           [ast.Build_Comment "// Useful for testing."] fnEcho);
    try reflexivity; try discriminate.
  repeat constructor.
Defined.
